(** * Veilnova Fetch Node: a shallow embedding of [bot.py]

    The download-orchestration core of the bot (URL classification, argument
    construction, planning, quality negotiation, download execution, delivery
    and cleanup, the per-chat lock and the registry of pending quality menus)
    is translated function by function.  Python names are kept.

    Conventions of the embedding:
    - a Python [str] is the list of its code points ([str := list N]);
      [len], slicing and [strip] therefore count characters, as in Python;
    - a [Path] is its string form (absolute, normalised, separator [/]);
      the file system is a finite map from paths to files and directories,
      and its operations succeed: errors of the operating system are
      outside the model;
    - [Dict[str, PendingJob]] and [Dict[int, Lock]] are [gmap]s;
    - instants of the clock are rationals; a size in megabytes is compared
      with its limit on the exact quotient;
    - external collaborators (subprocesses, the transport client, the clock,
      [uuid4], [json.loads], the regular expression of URLs) are oracles
      gathered in the record [Env]; every call to a subprocess or to the
      transport is appended to a trace;
    - a coroutine is a function of the monad [M] (state and exceptions);
      logging is left out. *)

From Stdlib Require Import ZArith NArith QArith List Lia Bool Ascii String Sorted.
From stdpp Require Import base decidable option list countable gmap fin_maps.

Import ListNotations.
#[local] Open Scope Z_scope.
#[local] Set Default Proof Using "Type".

(* ===================================================================== *)
(** * Text *)
(* ===================================================================== *)

Module Text.

(** A Python string: the sequence of its code points. *)
Definition str := list N.

(** ** Literals: a source literal is UTF-8 text, decoded to code points. *)

Fixpoint bytes_of_string (s : string) : list N :=
  match s with
  | EmptyString => []
  | String a r => N_of_ascii a :: bytes_of_string r
  end.

Fixpoint utf8_decode (bs : list N) : str :=
  match bs with
  | [] => []
  | b :: r =>
      if (b <? 128)%N then b :: utf8_decode r
      else if (b <? 224)%N then
        match r with
        | c1 :: r1 => ((b - 192) * 64 + (c1 - 128))%N :: utf8_decode r1
        | _ => []
        end
      else if (b <? 240)%N then
        match r with
        | c1 :: c2 :: r2 =>
            ((b - 224) * 4096 + (c1 - 128) * 64 + (c2 - 128))%N
              :: utf8_decode r2
        | _ => []
        end
      else
        match r with
        | c1 :: c2 :: c3 :: r3 =>
            ((b - 240) * 262144 + (c1 - 128) * 4096
             + (c2 - 128) * 64 + (c3 - 128))%N :: utf8_decode r3
        | _ => []
        end
  end.

Definition u (s : string) : str := utf8_decode (bytes_of_string s).

(** [s.encode("utf-8")], one character at a time. *)
Definition utf8_char (c : N) : list N :=
  if (c <? 128)%N then [c]
  else if (c <? 2048)%N then [(192 + c / 64)%N; (128 + c mod 64)%N]
  else if (c <? 65536)%N then
    [(224 + c / 4096)%N; (128 + (c / 64) mod 64)%N; (128 + c mod 64)%N]
  else
    [(240 + c / 262144)%N; (128 + (c / 4096) mod 64)%N;
     (128 + (c / 64) mod 64)%N; (128 + c mod 64)%N].

Definition utf8_encode (s : str) : list N := flat_map utf8_char s.

(** The line feed, which a Rocq literal cannot escape. *)
Definition NL : str := [10%N].

(** ** [str.lower]

    Only used to feed substring tests against ASCII needles.  The code points
    whose lower-case form contains an ASCII letter are A-Z, the Kelvin sign
    (U+212A, lower-case k) and the dotted capital I (U+0130, lower-case i
    followed by U+0307); every other code point is left as it is, which does
    not change the outcome of such a test. *)
Definition lower_char (c : N) : str :=
  if ((65 <=? c) && (c <=? 90))%N then [(c + 32)%N]
  else if (c =? 8490)%N then [107%N]
  else if (c =? 304)%N then [105%N; 775%N]
  else [c].

Definition lower (s : str) : str := flat_map lower_char s.

(** ** [str.isspace] on one character (Unicode white space). *)
Definition isspace (c : N) : bool :=
  (((9 <=? c) && (c <=? 13)) || ((28 <=? c) && (c <=? 32))
   || (c =? 133) || (c =? 160) || (c =? 5760)
   || ((8192 <=? c) && (c <=? 8202))
   || (c =? 8232) || (c =? 8233) || (c =? 8239) || (c =? 8287)
   || (c =? 12288))%N.

Fixpoint lstrip (s : str) : str :=
  match s with
  | [] => []
  | c :: r => if isspace c then lstrip r else s
  end.

(** [s.rstrip()]: the white space that ends [s] is dropped. *)
Fixpoint rstrip (s : str) : str :=
  match s with
  | [] => []
  | c :: r =>
      match rstrip r with
      | [] => if isspace c then [] else [c]
      | r' => c :: r'
      end
  end.

Definition strip (s : str) : str := rstrip (lstrip s).

(** ** Prefix, suffix and substring tests *)

Fixpoint startswith (s p : str) : bool :=
  match p, s with
  | [], _ => true
  | a :: p', b :: s' => (a =? b)%N && startswith s' p'
  | _ :: _, [] => false
  end.

Definition endswith (s p : str) : bool := startswith (rev s) (rev p).

(** [needle in hay] *)
Fixpoint contains (needle hay : str) : bool :=
  startswith hay needle
  || match hay with
     | [] => false
     | _ :: t => contains needle t
     end.

(** ** Slices *)

(** [s[:n]] for [n >= 0]. *)
Definition slice_to (n : nat) (s : str) : str := firstn n s.

(** [s[-n:]] for [0 < n]: the last [n] characters (all of [s] if shorter). *)
Definition last_chars (n : nat) (s : str) : str :=
  skipn (length s - n) s.

(** [s[:k]] for any integer [k], with Python's reading of a negative bound. *)
Definition slice_upto (k : Z) (s : str) : str :=
  if 0 <=? k then firstn (Z.to_nat k) s
  else firstn (length s - Z.to_nat (- k)) s.

(** ** Decimal numerals: [str(n)] and [int(s)] *)

Definition digit_char (d : N) : N := (48 + d)%N.

Fixpoint dec_pos_fuel (fuel : nat) (n : N) (acc : str) : str :=
  match fuel with
  | O => acc
  | S f =>
      let acc' := digit_char (n mod 10) :: acc in
      if (n / 10 =? 0)%N then acc' else dec_pos_fuel f (n / 10) acc'
  end.

Definition dec_N (n : N) : str := dec_pos_fuel (S (N.to_nat (N.log2 n))) n [].

Definition dec_Z (z : Z) : str :=
  if z <? 0 then 45%N :: dec_N (Z.to_N (- z)) else dec_N (Z.to_N z).

Definition is_ascii_digit (c : N) : bool := ((48 <=? c) && (c <=? 57))%N.

(** [s.isdigit()], for the ASCII digits the keyboard of this bot produces. *)
Definition isdigit (s : str) : bool :=
  match s with
  | [] => false
  | _ => forallb is_ascii_digit s
  end.

(** [int(s)] on a string of ASCII digits. *)
Definition int_of_digits (s : str) : Z :=
  fold_left (fun acc c => 10 * acc + Z.of_N (c - 48)) s 0.

(** ** Order on strings (code point by code point), for [sorted] *)

Fixpoint str_leb (a b : str) : bool :=
  match a, b with
  | [], _ => true
  | _ :: _, [] => false
  | x :: a', y :: b' =>
      if (x <? y)%N then true
      else if (y <? x)%N then false
      else str_leb a' b'
  end.

Definition str_eqb (a b : str) : bool :=
  if decide (a = b) then true else false.

End Text.
Import Text.


(* ===================================================================== *)
(** * Sorting ([sorted], [list.sort]) *)
(* ===================================================================== *)

Section Sorting.
Context {A : Type} (le : A -> A -> bool).

Fixpoint insert_by (x : A) (l : list A) : list A :=
  match l with
  | [] => [x]
  | y :: r => if le x y then x :: l else y :: insert_by x r
  end.

(** A stable insertion sort, as Python's [sort] is stable. *)
Definition sort_by (l : list A) : list A := fold_right insert_by [] l.
End Sorting.

(* ===================================================================== *)
(** * Probe metadata: the JSON document printed by the primary tool *)
(* ===================================================================== *)

#[local] Set Warnings "-register-all".

(** A value of [json.loads].  A float keeps only what the bot can observe of
    it: whether it is zero (its truth value). *)
Inductive json : Type :=
| JNull
| JBool (b : bool)
| JInt (n : Z)
| JFloat (is_zero : bool)
| JStr (s : str)
| JList (l : list json)
| JDict (d : list (str * json)).

(** A Python [dict] with string keys, as the list of its items. *)
Definition dict := list (str * json).

(** [d.get(k)]: [None] (here [JNull]) when the key is missing. *)
Fixpoint dict_get (d : dict) (k : str) : json :=
  match d with
  | [] => JNull
  | (k', v) :: r => if str_eqb k' k then v else dict_get r k
  end.

(** The truth value of a Python object. *)
Definition truthy (v : json) : bool :=
  match v with
  | JNull => false
  | JBool b => b
  | JInt n => negb (n =? 0)
  | JFloat z => negb z
  | JStr s => match s with [] => false | _ => true end
  | JList l => match l with [] => false | _ => true end
  | JDict d => match d with [] => false | _ => true end
  end.

(** [isinstance(v, int)]: [bool] is a subclass of [int]. *)
Definition as_int (v : json) : option Z :=
  match v with
  | JInt n => Some n
  | JBool b => Some (if b then 1 else 0)
  | _ => None
  end.

(** [vcodec in (None, "none")] *)
Definition vcodec_is_none (v : json) : bool :=
  match v with
  | JNull => true
  | JStr s => str_eqb s (u "none")
  | _ => false
  end.

(** One turn of the loop of [extract_available_heights]: the height the
    format [f] adds to the set, if any. *)
Definition format_height (f : json) : option Z :=
  match f with
  | JDict d =>
      let h := dict_get d (u "height") in
      let vcodec := dict_get d (u "vcodec") in
      if vcodec_is_none vcodec then None
      else match as_int h with
           | Some n => if 0 <? n then Some n else None
           | None => None
           end
  | _ => None
  end.

Definition heights_set (fmts : list json) : gset Z :=
  list_to_set (omap format_height fmts).

Definition extract_available_heights (info : dict) : list Z :=
  match dict_get info (u "formats") with
  | JList fmts => sort_by (fun a b => b <=? a) (elements (heights_set fmts))
  | _ => []
  end.

Definition wanted : list Z := [1080; 720; 480; 360].

Definition pick_menu_heights (available : list Z) : list Z :=
  let avail_set : gset Z := list_to_set available in
  filter (fun h => h ∈ avail_set) wanted.

Definition fmt_selector_for_height (height : Z) : str :=
  u "bv*[height<=" ++ dec_Z height ++ u "]+ba/b[height<=" ++ dec_Z height
    ++ u "]/best[height<=" ++ dec_Z height ++ u "]".

(** [extract_estimated_size_bytes] *)
Definition size_field (d : dict) (key : str) : option Z :=
  match as_int (dict_get d key) with
  | Some v => if 0 <? v then Some v else None
  | None => None
  end.

Definition size_fields (d : dict) : option Z :=
  match size_field d (u "filesize") with
  | Some v => Some v
  | None => size_field d (u "filesize_approx")
  end.

Fixpoint first_size (rd : list json) : option Z :=
  match rd with
  | [] => None
  | JDict item :: r =>
      match size_fields item with
      | Some v => Some v
      | None => first_size r
      end
  | _ :: r => first_size r
  end.

Definition extract_estimated_size_bytes (info : dict) : option Z :=
  match size_fields info with
  | Some v => Some v
  | None =>
      match dict_get info (u "requested_downloads") with
      | JList rd => first_size rd
      | _ => None
      end
  end.

(* ===================================================================== *)
(** * Captions *)
(* ===================================================================== *)

(** The ellipsis marker, one character (U+2026). *)
Definition ELLIPSIS : str := u "…".

(** The text a caption is derived from: the description, else the title. *)
Definition caption_text (title description : str) : str :=
  let desc := strip description in
  let ttl := strip title in
  strip (match desc with [] => ttl | _ => desc end).

Definition build_caption (title description : str) (max_len : Z) : str :=
  let text := caption_text title description in
  if max_len <? Z.of_nat (length text)
  then rstrip (slice_upto (max_len - 1) text) ++ ELLIPSIS
  else text.

(** The default of the parameter [max_len]. *)
Definition CAPTION_MAX : Z := 1024.

(* ===================================================================== *)
(** * URL classifier *)
(* ===================================================================== *)

Definition is_instagram (url : str) : bool :=
  let u_ := lower url in
  contains (u "instagram.com") u_ || contains (u "instagr.am") u_.

Definition is_instagram_post (url : str) : bool :=
  contains (u "instagram.com/p/") (lower url).

Definition is_pinterest (url : str) : bool :=
  let u_ := lower url in
  contains (u "pinterest.") u_ || contains (u "pin.it") u_.

Definition is_tiktok (url : str) : bool :=
  let u_ := lower url in
  contains (u "tiktok.com") u_ || contains (u "vt.tiktok.com") u_.

Definition is_youtube (url : str) : bool :=
  let u_ := lower url in
  contains (u "youtube.com") u_ || contains (u "youtu.be") u_.

Definition quality_hosts : list str :=
  [u "youtube.com"; u "youtu.be"; u "vk.com"; u "vkvideo.ru"; u "rutube.ru";
   u "vimeo.com"; u "dailymotion.com"; u "twitch.tv"].

Definition supports_quality_menu (url : str) : bool :=
  if is_instagram url || is_tiktok url || is_pinterest url then false
  else existsb (fun h => contains h (lower url)) quality_hosts.

(* ===================================================================== *)
(** * Paths and the file system *)
(* ===================================================================== *)

(** A path is its string form. *)
Definition Path := str.

Definition SLASH : N := 47%N.
Definition DOT : N := 46%N.

(** [d / name] *)
Definition path_join (d : Path) (name : str) : Path := d ++ [SLASH] ++ name.

(** Splits [s] at the last occurrence of [sep]. *)
Fixpoint rsplit_at (sep : N) (s : str) : option (str * str) :=
  match s with
  | [] => None
  | c :: r =>
      match rsplit_at sep r with
      | Some (a, b) => Some (c :: a, b)
      | None => if (c =? sep)%N then Some ([], r) else None
      end
  end.

(** [p.name] *)
Definition path_name (p : Path) : str :=
  match rsplit_at SLASH p with
  | Some (_, n) => n
  | None => p
  end.

(** [p.parent] *)
Definition path_parent (p : Path) : Path :=
  match rsplit_at SLASH p with
  | Some ([], _) => [SLASH]
  | Some (d, _) => d
  | None => [DOT]
  end.

(** [p.suffix]: from the last dot of the name, when that dot is neither its
    first nor its last character. *)
Definition path_suffix (p : Path) : str :=
  match rsplit_at DOT (path_name p) with
  | Some (_ :: _, c :: ext) => DOT :: c :: ext
  | _ => []
  end.

Definition str_in (s : str) (l : list str) : bool :=
  existsb (str_eqb s) l.

Definition IMAGE_EXTS : list str := [u ".jpg"; u ".jpeg"; u ".png"; u ".webp"].

Definition is_image_file (p : Path) : bool :=
  str_in (lower (path_suffix p)) IMAGE_EXTS.

Inductive SendMethod := SmVideo | SmPhoto | SmAudio | SmDocument.

Definition guess_send_method (p : Path) : SendMethod :=
  let ext := lower (path_suffix p) in
  if str_in ext [u ".mp4"; u ".mkv"; u ".webm"; u ".mov"] then SmVideo
  else if str_in ext [u ".jpg"; u ".jpeg"; u ".png"; u ".webp"] then SmPhoto
  else if str_in ext [u ".mp3"; u ".m4a"; u ".aac"; u ".ogg"; u ".opus";
                      u ".wav"] then SmAudio
  else SmDocument.

(** [f"file://{p.as_posix()}"] *)
Definition file_uri (p : Path) : str := u "file://" ++ p.

(** An entry of the file system: a regular file with its size in bytes, or
    a directory. *)
Inductive Node := File (size : Z) | Dir.

Definition FS := gmap str Node.

Definition exists_ (fs : FS) (p : Path) : bool :=
  match fs !! p with Some _ => true | None => false end.

Definition is_file (fs : FS) (p : Path) : bool :=
  match fs !! p with Some (File _) => true | _ => false end.

Definition is_dir (fs : FS) (p : Path) : bool :=
  match fs !! p with Some Dir => true | _ => false end.

Definition st_size (fs : FS) (p : Path) : Z :=
  match fs !! p with Some (File n) => n | _ => 0 end.

(** [p] lies below the directory [d]. *)
Definition below (d p : Path) : bool := startswith p (d ++ [SLASH]).

(** [p.unlink(missing_ok=True)] *)
Definition unlink (fs : FS) (p : Path) : FS := delete p fs.

(** [shutil.rmtree(d, ignore_errors=True)] *)
Definition rmtree (fs : FS) (d : Path) : FS :=
  filter (fun kv => negb (str_eqb kv.1 d || below d kv.1) = true) fs.

(** [d.mkdir(parents=True, exist_ok=True)] *)
Definition mkdir (fs : FS) (d : Path) : FS :=
  match fs !! d with Some _ => fs | None => <[d := Dir]> fs end.

(** [shutil.copyfile(src, dst)] *)
Definition copyfile (fs : FS) (src dst : Path) : FS :=
  match fs !! src with
  | Some (File n) => <[dst := File n]> fs
  | _ => fs
  end.

(** The entries of the file system in the order of their path strings, which
    is the order directory listings are taken to have. *)
Definition entries (fs : FS) : list Path :=
  sort_by str_leb (map fst (map_to_list fs)).

(** [sorted(d.glob(prefix + ".*"))]: the entries of [d] itself whose name
    starts with [prefix] and a dot. *)
Definition glob_prefix (fs : FS) (d : Path) (prefix : str) : list Path :=
  List.filter
    (fun p => str_eqb (path_parent p) d
              && startswith (path_name p) (prefix ++ [DOT]))
    (entries fs).

(** [sorted(d.rglob(prefix + ".*"))]: the same at any depth below [d]. *)
Definition rglob_prefix (fs : FS) (d : Path) (prefix : str) : list Path :=
  List.filter
    (fun p => below d p && startswith (path_name p) (prefix ++ [DOT]))
    (entries fs).

(** [d.rglob("*")] *)
Definition rglob_all (fs : FS) (d : Path) : list Path :=
  List.filter (below d) (entries fs).

(** [files.sort(key=lambda p: p.name.lower())] *)
Definition sort_by_name (l : list Path) : list Path :=
  sort_by (fun p q => str_leb (lower (path_name p)) (lower (path_name q))) l.

(* ===================================================================== *)
(** * Configuration, exceptions, the outside world *)
(* ===================================================================== *)

(** The module-level constants read from the environment at start-up. *)
Record Config := {
  DOWNLOAD_DIR : Path;
  MAX_FILE_MB : Z;
  TG_MAX_UPLOAD_MB : Z;
  QUALITY_MENU_TTL_SEC : Z;
  DELETE_STATUS_ON_SUCCESS : bool;
  DELETE_STATUS_DELAY_SEC : Z;
  YTDLP_IMPERSONATE : str;
  YTDLP_FORCE_IPV4 : bool;
  YTDLP_YOUTUBE_PLAYER_CLIENT : str;
  YTDLP_REMOTE_COMPONENTS : str;
  YTDLP_COOKIES : str
}.

(** The defaults of [bot.py]. *)
Definition default_config : Config := {|
  DOWNLOAD_DIR := u "/data";
  MAX_FILE_MB := 1900;
  TG_MAX_UPLOAD_MB := 1900;
  QUALITY_MENU_TTL_SEC := 600;
  DELETE_STATUS_ON_SUCCESS := true;
  DELETE_STATUS_DELAY_SEC := 2;
  YTDLP_IMPERSONATE := u "chrome";
  YTDLP_FORCE_IPV4 := true;
  YTDLP_YOUTUBE_PLAYER_CLIENT := u "web_embedded,web,tv";
  YTDLP_REMOTE_COMPONENTS := u "ejs:github";
  YTDLP_COOKIES := []
|}.

(** A Python exception, as far as the bot looks at it: whether it is an
    [asyncio.TimeoutError], and [str(e)]. *)
Record Exn := {
  exn_is_timeout : bool;
  exn_msg : str
}.

Definition RuntimeError (msg : str) : Exn :=
  {| exn_is_timeout := false; exn_msg := msg |}.
Definition ValueError (msg : str) : Exn :=
  {| exn_is_timeout := false; exn_msg := msg |}.
Definition OSError (msg : str) : Exn :=
  {| exn_is_timeout := false; exn_msg := msg |}.
Definition AttributeError (msg : str) : Exn :=
  {| exn_is_timeout := false; exn_msg := msg |}.

Inductive Result (A : Type) : Type :=
| Ok (a : A)
| Raise (e : Exn).
Arguments Ok {A} a.
Arguments Raise {A} e.

(** How a file is handed to the transport: [file_uri(p)], a reference to a
    local path, or [FSInputFile(str(p))], an upload of its content. *)
Inductive InputFile :=
| ByUri (uri : str)
| ByUpload (path : Path).

(** [InlineKeyboardButton(text=..., callback_data=...)] *)
Record Button := { btn_text : str; btn_callback_data : str }.

Definition Keyboard := list (list Button).

Inductive MediaKind := MkPhoto | MkVideo.

(** [InputMediaPhoto(media=FSInputFile(str(p)), caption=cap)] and its video
    counterpart. *)
Record InputMedia := { media_path : Path; media_caption : option str }.

(** The calls the bot makes to its collaborators. *)
Inductive Event :=
| EvCmd (args : list str)
| EvUuid
| EvReply (chat_id : Z) (text : str)
| EvEditText (chat_id message_id : Z) (text : str) (kb : option Keyboard)
| EvDeleteMessage (chat_id message_id : Z)
| EvAnswer (text : str) (show_alert : bool)
| EvSendMediaGroup (kind : MediaKind) (chat_id : Z) (media : list InputMedia)
| EvSendVideo (chat_id : Z) (video : InputFile) (caption : option str)
| EvSendAudio (chat_id : Z) (audio : InputFile) (caption : option str)
| EvSendDocument (chat_id : Z) (document : InputFile) (caption : option str)
| EvSleep (seconds : Z).

(** The collaborators, as oracles.  Each sees the calls made so far, so that
    its answers may change from call to call.
    - [run_cmd_oracle]: what [run_cmd] returns for a command line (exit
      code, stdout, stderr), or the exception it raises, and the file system
      the subprocess leaves;
    - [transport_oracle]: whether a call to the transport client succeeds
      (with the id of the message concerned) or raises;
    - [uuid4_hex]: [uuid.uuid4().hex];
    - [time_time]: [time.time()];
    - [json_loads]: [json.loads] on a text that starts with an opening
      brace, whose value is a [dict] when it does not raise;
    - [py_str]: [str(v)] for a value that is not a string;
    - [URL_RE_search]: [URL_RE.search(text)], the URL matched, if any. *)
Record Env := {
  run_cmd_oracle : list Event -> list str -> FS -> Result (Z * str * str) * FS;
  transport_oracle : list Event -> Event -> Result Z;
  uuid4_hex : list Event -> str;
  time_time : list Event -> Q;
  json_loads : str -> Result dict;
  py_str : json -> str;
  URL_RE_search : str -> option str
}.

(** What the pipeline functions act on: the file system, and the trace of
    the calls made so far. *)
Record World := {
  fs : FS;
  trace : list Event
}.

(* ===================================================================== *)
(** * The monad of coroutines: state and exceptions *)
(* ===================================================================== *)

Definition M (S A : Type) : Type := S -> Result A * S.

Definition ret {S A} (a : A) : M S A := fun s => (Ok a, s).

Definition bind {S A B} (m : M S A) (k : A -> M S B) : M S B :=
  fun s =>
    match m s with
    | (Ok a, s') => k a s'
    | (Raise e, s') => (Raise e, s')
    end.

Definition raise {S A} (e : Exn) : M S A := fun s => (Raise e, s).

(** [try: m except Exception as e: h e] *)
Definition try_except {S A} (m : M S A) (h : Exn -> M S A) : M S A :=
  fun s =>
    match m s with
    | (Ok a, s') => (Ok a, s')
    | (Raise e, s') => h e s'
    end.

(** [try: m finally: f] *)
Definition try_finally {S A} (m : M S A) (f : M S unit) : M S A :=
  fun s =>
    match m s with
    | (r, s') =>
        match f s' with
        | (Ok _, s'') => (r, s'')
        | (Raise e, s'') => (Raise e, s'')
        end
    end.

Declare Scope monad_scope.
Delimit Scope monad_scope with monad.
Notation "x <- c1 ;; c2" := (bind c1 (fun x => c2))
  (at level 100, c1 at next level, right associativity) : monad_scope.
Notation "c1 ;; c2" := (bind c1 (fun _ => c2))
  (at level 100, right associativity) : monad_scope.
#[local] Open Scope monad_scope.

(** [for x in l: body x] *)
Fixpoint for_each {S A} (l : list A) (body : A -> M S unit) : M S unit :=
  match l with
  | [] => ret tt
  | x :: r => body x ;; for_each r body
  end.

(** [for i, x in enumerate(l): body i x], counting from [i]. *)
Fixpoint for_enumerate {S A} (i : nat) (l : list A)
         (body : nat -> A -> M S unit) : M S unit :=
  match l with
  | [] => ret tt
  | x :: r => body i x ;; for_enumerate (Datatypes.S i) r body
  end.

Definition get {S} : M S S := fun s => (Ok s, s).
Definition put {S} (s : S) : M S unit := fun _ => (Ok tt, s).

(** ** The primitives of the pipeline *)

Section Primitives.
Context (env : Env).

Definition log_event (ev : Event) (w : World) : World :=
  {| fs := fs w; trace := trace w ++ [ev] |}.

(** [await run_cmd(args)] *)
Definition run_cmd (args : list str) : M World (Z * str * str) :=
  fun w =>
    let '(r, fs') := run_cmd_oracle env (trace w) args (fs w) in
    (r, {| fs := fs'; trace := trace w ++ [EvCmd args] |}).

(** A call to the transport client. *)
Definition transport (ev : Event) : M World Z :=
  fun w => (transport_oracle env (trace w) ev, log_event ev w).

(** [uuid.uuid4().hex] *)
Definition uuid4 : M World str :=
  fun w => (Ok (uuid4_hex env (trace w)), log_event EvUuid w).

(** [time.time()] *)
Definition now : M World Q :=
  fun w => (Ok (time_time env (trace w)), w).

(** [await asyncio.sleep(seconds)] *)
Definition sleep (seconds : Z) : M World unit :=
  fun w => (Ok tt, log_event (EvSleep seconds) w).

Definition get_fs : M World FS := fun w => (Ok (fs w), w).

Definition modify_fs (f : FS -> FS) : M World unit :=
  fun w => (Ok tt, {| fs := f (fs w); trace := trace w |}).

End Primitives.

(* ===================================================================== *)
(** * Planner and download executor *)
(* ===================================================================== *)

Inductive Mode := video | photo | gallery.

Record DownloadPlan := {
  mode : Mode;
  title : str;
  description : str;
  info : option dict
}.

(** [(err or out).strip()] *)
Definition diagnostic (out err : str) : str :=
  strip (match err with [] => out | _ => err end).

(** [if len(msg) > 1200: msg = msg[-1200:]] *)
Definition tail_1200 (msg : str) : str :=
  if (1200 <? length msg)%nat then last_chars 1200 msg else msg.

Definition USER_AGENT : str :=
  u "Mozilla/5.0 (Windows NT 10.0; Win64; x64) AppleWebKit/537.36 (KHTML, like Gecko) Chrome/120 Safari/537.36".

(** The signature of the failure that triggers the gallery fallback. *)
Definition NO_FORMATS : str := u "No video formats found".

Definition MEDIA_EXTS : list str :=
  [u ".jpg"; u ".jpeg"; u ".png"; u ".webp"; u ".mp4"; u ".mov"; u ".webm";
   u ".mkv"].

(** [f"{x:.1f}"] for [x = bytes / (1024 * 1024)]: one decimal, the exact
    quotient rounded to nearest, ties to even. *)
Definition fmt_mb (bytes : Z) : str :=
  let t := bytes * 10 in
  let q := t / 1048576 in
  let r := t mod 1048576 in
  let q' := if (524288 <? r) || ((r =? 524288) && Z.odd q) then q + 1 else q in
  dec_Z (q' / 10) ++ [DOT] ++ dec_Z (q' mod 10).

(** [size / (1024 * 1024) > limit_mb], on the exact quotient. *)
Definition exceeds_mb (size limit_mb : Z) : bool :=
  limit_mb * 1048576 <? size.

(** First index of [c] in [s] ([s.find(c)]), and last ([s.rfind(c)]). *)
Fixpoint find_char (c : N) (s : str) : option nat :=
  match s with
  | [] => None
  | x :: r => if (x =? c)%N then Some O
              else option_map Datatypes.S (find_char c r)
  end.

Fixpoint rfind_char (c : N) (s : str) : option nat :=
  match s with
  | [] => None
  | x :: r =>
      match rfind_char c r with
      | Some i => Some (Datatypes.S i)
      | None => if (x =? c)%N then Some O else None
      end
  end.

(** The characters [str.splitlines] breaks lines at. *)
Definition is_linebreak (c : N) : bool :=
  (((10 <=? c) && (c <=? 13)) || ((28 <=? c) && (c <=? 30))
   || (c =? 133) || (c =? 8232) || (c =? 8233))%N.

(** [s.splitlines()[0]] for a non-empty [s]. *)
Fixpoint first_line (s : str) : str :=
  match s with
  | [] => []
  | c :: r => if is_linebreak c then [] else c :: first_line r
  end.

Definition LBRACE : N := 123%N.
Definition RBRACE : N := 125%N.

Section Pipeline.
Context (env : Env) (cfg : Config).
#[local] Open Scope monad_scope.

Definition load_first_json (text : str) : Result dict :=
  let s := strip text in
  match s with
  | [] => Raise (ValueError (u "Empty yt-dlp output"))
  | _ =>
      let first := strip (first_line s) in
      if startswith first [LBRACE] && endswith first [RBRACE]
      then json_loads env first
      else
        match find_char LBRACE s, rfind_char RBRACE s with
        | Some start, Some end_ =>
            if (end_ <=? start)%nat
            then Raise (ValueError (u "No JSON object found in yt-dlp output"))
            else json_loads env (skipn start (firstn (end_ + 1) s))
        | _, _ =>
            Raise (ValueError (u "No JSON object found in yt-dlp output"))
        end
  end.

(** [str(v or "").strip()] *)
Definition str_or_empty (v : json) : str :=
  strip (if truthy v
         then match v with JStr s => s | _ => py_str env v end
         else []).

Definition resolve_cookies_source (f : FS) : option Path :=
  match strip (YTDLP_COOKIES cfg) with
  | [] =>
      let fallback := u "/run/secrets/cookies.txt" in
      if exists_ f fallback then Some fallback else None
  | src => if exists_ f src then Some src else None
  end.

(** [prepare_writable_cookies]: the cookie file, when there is one, is
    copied into the working directory.  Operations on the file system
    are taken to succeed: errors of the operating system are outside the
    model. *)
Definition prepare_writable_cookies (work_dir : Path)
  : M World (option Path) :=
  f <- get_fs ;;
  match resolve_cookies_source f with
  | None => ret None
  | Some src_path =>
      modify_fs (fun f => mkdir f work_dir) ;;
      let dst := path_join work_dir (u "instagram.cookies.txt") in
      modify_fs (fun f => copyfile f src_path dst) ;;
      ret (Some dst)
  end.

Definition yt_dlp_common_args (url : str) (cookies_path : option Path)
  : list str :=
  (if is_instagram_post url then [] else [u "--no-playlist"])
  ++ [u "--restrict-filenames"; u "--no-progress"]
  ++ (if is_youtube url
      then [u "--remote-components"; YTDLP_REMOTE_COMPONENTS cfg;
            u "--extractor-args";
            u "youtube:player_client=" ++ YTDLP_YOUTUBE_PLAYER_CLIENT cfg]
      else [])
  ++ (if is_tiktok url
      then [u "--impersonate"; YTDLP_IMPERSONATE cfg;
            u "--add-header"; u "Referer:https://www.tiktok.com/";
            u "--add-header"; u "Accept-Language:en-US,en;q=0.9";
            u "--user-agent"; USER_AGENT]
           ++ (if YTDLP_FORCE_IPV4 cfg then [u "-4"] else [])
      else [])
  ++ (match cookies_path with
      | Some c => [u "--cookies"; c]
      | None => []
      end)
  ++ (if is_instagram url
      then [u "--sleep-requests"; u "2"; u "--sleep-interval"; u "2";
            u "--max-sleep-interval"; u "4"; u "--user-agent"; USER_AGENT]
      else [])
  ++ (if is_instagram_post url
      then [u "--ignore-no-formats-error"; u "--no-abort-on-error"]
      else []).

(** The command line of the metadata-only probe. *)
Definition precheck_args (url : str) (cookies_copy : option Path)
  : list str :=
  [u "yt-dlp"; u "--dump-single-json"; u "--skip-download"; u "--quiet";
   u "--no-warnings"]
  ++ yt_dlp_common_args url cookies_copy ++ [url].

Definition precheck_plan (url : str) (max_file_mb : Z) (download_dir : Path)
  : M World DownloadPlan :=
  if is_instagram_post url then
    ret {| mode := photo; title := []; description := []; info := None |}
  else if is_pinterest url then
    ret {| mode := gallery; title := []; description := []; info := None |}
  else if is_tiktok url then
    ret {| mode := video; title := []; description := []; info := None |}
  else
    cookies_copy <- prepare_writable_cookies download_dir ;;
    r <- run_cmd env (precheck_args url cookies_copy) ;;
    let '(rc, out, err) := r in
    if negb (rc =? 0) then
      raise (RuntimeError (u "yt-dlp precheck error (code " ++ dec_Z rc
                             ++ u "):" ++ NL
                             ++ tail_1200 (diagnostic out err)))
    else
      match load_first_json out with
      | Raise e => raise e
      | Ok inf =>
          let ttl := str_or_empty (dict_get inf (u "title")) in
          let dsc := str_or_empty (dict_get inf (u "description")) in
          match extract_estimated_size_bytes inf with
          | Some size_bytes =>
              if exceeds_mb size_bytes max_file_mb then
                raise (RuntimeError
                         (u "Файл ~" ++ fmt_mb size_bytes
                            ++ u " MB превышает лимит " ++ dec_Z max_file_mb
                            ++ u " MB. Скачивание отменено."))
              else ret {| mode := video; title := ttl; description := dsc;
                          info := Some inf |}
          | None => ret {| mode := video; title := ttl; description := dsc;
                           info := Some inf |}
          end
      end.

Definition gallery_dl_args (url : str) (job_dir : Path)
           (cookies_copy : option Path) : list str :=
  [u "gallery-dl"; u "-d"; job_dir]
  ++ (match cookies_copy with
      | Some c => [u "--cookies"; c]
      | None => []
      end)
  ++ [url].

Definition has_media_ext (p : Path) : bool :=
  existsb (endswith (lower (path_name p))) MEDIA_EXTS.

Definition run_gallery_dl_download (url : str) (out_dir : Path)
  : M World (list Path) :=
  job_id <- uuid4 env ;;
  let job_dir := path_join out_dir (u "gdl_" ++ job_id) in
  modify_fs (fun f => mkdir f job_dir) ;;
  cookies_copy <- prepare_writable_cookies job_dir ;;
  r <- run_cmd env (gallery_dl_args url job_dir cookies_copy) ;;
  let '(rc, out, err) := r in
  if negb (rc =? 0) then
    raise (RuntimeError (u "gallery-dl error (code " ++ dec_Z rc ++ u "):"
                           ++ NL ++ tail_1200 (diagnostic out err)))
  else
    f <- get_fs ;;
    let files := List.filter (is_file f) (rglob_all f job_dir) in
    let files := List.filter has_media_ext files in
    let files := sort_by_name files in
    match files with
    | [] => raise (RuntimeError
                     (u "gallery-dl finished, but no files were found."))
    | _ => ret files
    end.

(** The files a finished download left under its job id. *)
Definition collect_candidates (out_dir : Path) (job_id : str)
  : M World (list Path) :=
  f <- get_fs ;;
  let candidates := glob_prefix f out_dir job_id in
  let candidates :=
    match candidates with
    | [] => rglob_prefix f out_dir job_id
    | _ => candidates
    end in
  match candidates with
  | [] => raise (RuntimeError
                   (u "Download finished, but output file was not found."))
  | _ => ret (sort_by_name (List.filter (is_file f) candidates))
  end.

(** The format filter of a quality choice, if it has one. *)
Definition fmt_of_choice (quality_choice : str) : option str :=
  if str_eqb quality_choice (u "best") then None
  else if endswith quality_choice (u "p")
          && isdigit (removelast quality_choice)
  then Some (fmt_selector_for_height
               (int_of_digits (removelast quality_choice)))
  else None.

Definition mp3_args (common : list str) (max_file_mb : Z)
           (outtmpl url : str) : list str :=
  [u "yt-dlp"] ++ common
  ++ [u "-f"; u "bestaudio/best"; u "--max-filesize";
      dec_Z max_file_mb ++ u "M"; u "-x"; u "--audio-format"; u "mp3";
      u "--audio-quality"; u "0"; u "-o"; outtmpl; url].

Definition video_args (common : list str) (fmt : option str)
           (max_file_mb : Z) (outtmpl url : str) : list str :=
  [u "yt-dlp"] ++ common
  ++ (match fmt with
      | Some ((_ :: _) as f) => [u "-f"; f]
      | _ => []
      end)
  ++ [u "--max-filesize"; dec_Z max_file_mb ++ u "M";
      u "--merge-output-format"; u "mp4"; u "-o"; outtmpl; url].

Definition other_args (common : list str) (max_file_mb : Z)
           (outtmpl url : str) : list str :=
  [u "yt-dlp"] ++ common
  ++ [u "--max-filesize"; dec_Z max_file_mb ++ u "M"; u "-o"; outtmpl; url].

(** The command line of a download that is not an MP3 extraction. *)
Definition download_args (common : list str) (mode_ : Mode)
           (quality_choice : str) (max_file_mb : Z) (outtmpl url : str)
  : list str :=
  match mode_ with
  | video => video_args common (fmt_of_choice quality_choice) max_file_mb
               outtmpl url
  | _ => other_args common max_file_mb outtmpl url
  end.

Definition yt_dlp_error (rc : Z) (msg : str) : Exn :=
  RuntimeError (u "yt-dlp download error (code " ++ dec_Z rc ++ u "):"
                  ++ NL ++ msg).

(** The first part of [run_yt_dlp_download], up to the command line: the
    job id, the cookies, the common arguments, and for TikTok the query
    of the tool's version, whose failure is passed over. *)
Definition download_setup (url : str) (out_dir : Path)
  : M World (str * list str) :=
  job_id <- uuid4 env ;;
  cookies_copy <- prepare_writable_cookies out_dir ;;
  let common := yt_dlp_common_args url cookies_copy in
  (if is_tiktok url
   then try_except (run_cmd env [u "yt-dlp"; u "--version"] ;; ret tt)
                   (fun _ => ret tt)
   else ret tt) ;;
  ret (job_id, common).

Definition outtmpl_of (out_dir : Path) (job_id : str) : str :=
  path_join out_dir (job_id ++ u ".%(autonumber)03d.%(title).200s.%(ext)s").

(** The command line of the download. *)
Definition primary_args (common : list str) (mode_ : Mode)
           (quality_choice : str) (max_file_mb : Z) (outtmpl url : str)
  : list str :=
  if str_eqb quality_choice (u "mp3")
  then mp3_args common max_file_mb outtmpl url
  else download_args common mode_ quality_choice max_file_mb outtmpl url.

Definition run_yt_dlp_download (url : str) (out_dir : Path)
           (max_file_mb : Z) (mode_ : Mode) (quality_choice : str)
  : M World (list Path) :=
  setup <- download_setup url out_dir ;;
  let '(job_id, common) := setup in
  let outtmpl := outtmpl_of out_dir job_id in
  if str_eqb quality_choice (u "mp3") then
    r <- run_cmd env (mp3_args common max_file_mb outtmpl url) ;;
    let '(rc, out, err) := r in
    if negb (rc =? 0) then
      raise (yt_dlp_error rc (tail_1200 (diagnostic out err)))
    else collect_candidates out_dir job_id
  else
    r <- run_cmd env (download_args common mode_ quality_choice max_file_mb
                        outtmpl url) ;;
    let '(rc, out, err) := r in
    if negb (rc =? 0) then
      let msg := diagnostic out err in
      if contains NO_FORMATS msg && (is_instagram_post url || is_pinterest url)
      then run_gallery_dl_download url out_dir
      else raise (yt_dlp_error rc (tail_1200 msg))
    else collect_candidates out_dir job_id.

End Pipeline.

(* ===================================================================== *)
(** * Delivery and cleanup *)
(* ===================================================================== *)

(** The status message a pipeline reports to. *)
Record Message := {
  msg_chat_id : Z;
  msg_message_id : Z;
  msg_from_user : option Z;
  msg_text : str
}.

(** [range(0, n, step)] *)
Definition range_step (n step : nat) : list nat :=
  map (fun k => (k * step)%nat) (seq 0 ((n + step - 1) / step)).

(** [caption or None] *)
Definition caption_or_none (caption : str) : option str :=
  match caption with [] => None | _ => Some caption end.

(** The texts shown to the user. *)
Definition TXT_IN_PROGRESS : str := u "🔄 В процессе…".
Definition TXT_BUSY : str := u "⏳ Загрузка ещё идёт. Пожалуйста, подожди.".
Definition TXT_INVALID : str := u "⚠️ Некорректный выбор. Попробуй ещё раз.".
Definition TXT_STALE : str := u "⌛ Запрос устарел. Пришли ссылку заново.".
Definition TXT_FOREIGN : str :=
  u "ℹ️ Это меню не относится к текущему запросу.".
Definition TXT_CANCELLED : str := u "🚫 Отменено.".
Definition TXT_CANCELLED_STATUS : str :=
  u "🚫 Запрос отменён. Пришли ссылку заново.".
Definition TXT_CHOOSE : str := u "🎚 Выбери нужное качество:".
Definition TXT_SENDING_VIDEO : str := u "🎥 Отправляю видео…".
Definition TXT_DONE : str := u "✅ Готово.".
Definition TXT_TIMEOUT : str :=
  u "⏱ Возможна задержка со стороны Telegram." ++ NL
    ++ u "Если файл уже появился — всё в порядке." ++ NL
    ++ u "Если нет, попробуй повторить запрос чуть позже.".
Definition txt_fail (e : Exn) : str :=
  u "❌ Не удалось выполнить запрос:" ++ NL ++ exn_msg e.
Definition txt_photos (n : nat) : str :=
  u "📸 Подготовлено фото: " ++ dec_Z (Z.of_nat n) ++ u ". Отправляю…".
Definition txt_videos (n : nat) : str :=
  u "🎬 Подготовлено видео: " ++ dec_Z (Z.of_nat n) ++ u ". Отправляю…".
Definition txt_audio (i n : nat) : str :=
  u "🎧 Отправляю аудио (" ++ dec_Z (Z.of_nat i + 1) ++ u "/"
    ++ dec_Z (Z.of_nat n) ++ u ")…".
Definition txt_file (name : str) : str := u "📤 Отправляю файл: " ++ name.

Definition is_timeout_error (e : Exn) : bool :=
  let s := lower (exn_msg e) in
  contains (u "timeout") s || contains (u "request timeout") s
  || exn_is_timeout e.

(** The failure of a send by local-path reference that is retried as an
    upload. *)
Definition rejects_local_path (e : Exn) : bool :=
  contains (u "Unsupported URL protocol") (exn_msg e)
  || contains (u "invalid file HTTP URL") (exn_msg e).

Section Delivery.
Context (env : Env) (cfg : Config).
#[local] Open Scope monad_scope.

Definition safe_edit_text (msg : Message) (text : str)
           (reply_markup : option Keyboard) : M World unit :=
  try_except
    (transport env (EvEditText (msg_chat_id msg) (msg_message_id msg) text
                      reply_markup) ;; ret tt)
    (fun e => if contains (u "message is not modified") (exn_msg e)
              then ret tt else raise e).

(** The media of the batch that starts at index [idx]. *)
Definition media_batch (items : list Path) (caption : str) (idx : nat)
  : list InputMedia :=
  let batch := firstn 10 (skipn idx items) in
  imap (fun j p =>
          {| media_path := p;
             media_caption :=
               if (idx =? 0)%nat && (j =? 0)%nat
               then caption_or_none caption else None |})
       batch.

Definition send_media_group (kind : MediaKind) (chat_id : Z)
           (items : list Path) (caption : str) : M World unit :=
  for_each (range_step (length items) 10)
    (fun idx =>
       transport env (EvSendMediaGroup kind chat_id
                        (media_batch items caption idx)) ;;
       ret tt).

Definition send_media_group_photos := send_media_group MkPhoto.
Definition send_media_group_videos := send_media_group MkVideo.

Definition safe_remove (path : Path) : M World unit :=
  f <- get_fs ;;
  if is_file f path then modify_fs (fun f => unlink f path)
  else if is_dir f path then modify_fs (fun f => rmtree f path)
  else ret tt.

(** The three [send_*_safe] functions: a send by local-path reference,
    retried as an upload when the reference is rejected. *)
Definition send_safe (mk : InputFile -> option str -> Event) (p : Path)
           (caption : str) : M World unit :=
  try_except
    (transport env (mk (ByUri (file_uri p)) (caption_or_none caption)) ;;
     ret tt)
    (fun e =>
       if rejects_local_path e
       then transport env (mk (ByUpload p) (caption_or_none caption)) ;;
            ret tt
       else raise e).

Definition send_video_safe (chat_id : Z) := send_safe (EvSendVideo chat_id).
Definition send_audio_safe (chat_id : Z) := send_safe (EvSendAudio chat_id).
Definition send_document_safe (chat_id : Z) :=
  send_safe (EvSendDocument chat_id).

Definition too_big (p : Path) (size : Z) : Exn :=
  RuntimeError (u "Файл " ++ path_name p ++ u " (" ++ fmt_mb size
                  ++ u " MB) превышает лимит "
                  ++ dec_Z (TG_MAX_UPLOAD_MB cfg) ++ u " MB.").

Definition is_video (p : Path) : bool :=
  match guess_send_method p with SmVideo => true | _ => false end.
Definition is_audio (p : Path) : bool :=
  match guess_send_method p with SmAudio => true | _ => false end.

(** The last loop of [process_download_and_send]. *)
Definition cleanup (downloaded : list Path) : M World unit :=
  for_each downloaded
    (fun p => if contains (u "gdl_") p
              then safe_remove (path_parent p)
              else safe_remove p).

Definition process_download_and_send (chat_id : Z) (url : str)
           (status : Message) (plan : DownloadPlan) (quality_choice : str)
  : M World unit :=
  let caption := build_caption (title plan) (description plan) CAPTION_MAX in
  safe_edit_text status TXT_IN_PROGRESS None ;;
  downloaded <-
    (match mode plan with
     | gallery => run_gallery_dl_download env cfg url (DOWNLOAD_DIR cfg)
     | m => run_yt_dlp_download env cfg url (DOWNLOAD_DIR cfg)
              (MAX_FILE_MB cfg) m quality_choice
     end) ;;
  f <- get_fs ;;
  let downloaded :=
    List.filter (fun p => exists_ f p && is_file f p) downloaded in
  for_each downloaded
    (fun p => if exceeds_mb (st_size f p) (TG_MAX_UPLOAD_MB cfg)
              then raise (too_big p (st_size f p)) else ret tt) ;;
  let images := List.filter is_image_file downloaded in
  let others := List.filter (fun p => negb (str_in p images)) downloaded in
  let videos := List.filter is_video others in
  let audios := List.filter is_audio others in
  let non_media_docs :=
    List.filter (fun p => negb (str_in p videos) && negb (str_in p audios))
                others in
  (match images with
   | [] => ret tt
   | _ => safe_edit_text status (txt_photos (length images)) None ;;
          send_media_group_photos chat_id images caption
   end) ;;
  (match videos with
   | [] => ret tt
   | [v] => safe_edit_text status TXT_SENDING_VIDEO None ;;
            send_video_safe chat_id v caption
   | _ => safe_edit_text status (txt_videos (length videos)) None ;;
          send_media_group_videos chat_id videos caption
   end) ;;
  for_enumerate 0 audios
    (fun i p =>
       safe_edit_text status (txt_audio i (length audios)) None ;;
       send_audio_safe chat_id p (if (i =? 0)%nat then caption else [])) ;;
  for_each non_media_docs
    (fun p => safe_edit_text status (txt_file (path_name p)) None ;;
              send_document_safe chat_id p caption) ;;
  safe_edit_text status TXT_DONE None ;;
  (if DELETE_STATUS_ON_SUCCESS cfg
   then try_except
          (sleep (Z.max 0 (DELETE_STATUS_DELAY_SEC cfg)) ;;
           transport env (EvDeleteMessage (msg_chat_id status)
                            (msg_message_id status)) ;;
           ret tt)
          (fun _ => ret tt)
   else ret tt) ;;
  cleanup downloaded.

End Delivery.

(* ===================================================================== *)
(** * The registry of pending quality menus, the chat locks, the handlers *)
(* ===================================================================== *)

Record PendingJob := {
  job_token : str;
  job_chat_id : Z;
  job_user_id : Z;
  job_url : str;
  job_title : str;
  job_description : str;
  job_created_at : Q;
  job_expires_at : Q;
  job_status_message_id : Z
}.

(** The state of the process: the outside world and the two module-level
    dictionaries.  An [asyncio.Lock] is its [locked()] flag. *)
Record Bot := {
  world : World;
  pending_jobs : gmap str PendingJob;
  chat_locks : gmap Z bool
}.

(** [CallbackQuery] *)
Record CallbackQuery := {
  call_data : option str;
  call_from_user : option Z;
  call_message : option Message
}.

Definition PIPE : N := 124%N.

(** Splits [s] at the first occurrence of [sep]. *)
Fixpoint split_first (sep : N) (s : str) : option (str * str) :=
  match s with
  | [] => None
  | c :: r =>
      if (c =? sep)%N then Some ([], r)
      else match split_first sep r with
           | Some (a, b) => Some (c :: a, b)
           | None => None
           end
  end.

(** [s.split(sep, maxsplit)] *)
Fixpoint split_max (sep : N) (maxsplit : nat) (s : str) : list str :=
  match maxsplit with
  | O => [s]
  | Datatypes.S n =>
      match split_first sep s with
      | Some (a, b) => a :: split_max sep n b
      | None => [s]
      end
  end.

Definition quality_label (h : Z) : str :=
  if h =? 1080 then u "🎬 1080p"
  else if h =? 720 then u "📺 720p"
  else if h =? 480 then u "📱 480p"
  else if h =? 360 then u "⚡ 360p"
  else dec_Z h ++ u "p".

Definition build_quality_keyboard (token : str) (heights : list Z)
  : Keyboard :=
  let btns :=
    map (fun h => {| btn_text := quality_label h;
                     btn_callback_data :=
                       u "q|" ++ dec_Z h ++ u "p|" ++ token |})
        heights in
  [[ {| btn_text := u "🔥 Лучшее"; btn_callback_data := u "q|best|" ++ token |};
     {| btn_text := u "🎵 MP3"; btn_callback_data := u "q|mp3|" ++ token |} ]]
  ++ map (fun i => firstn 2 (skipn i btns)) (range_step (length btns) 2)
  ++ [[ {| btn_text := u "❌ Отмена";
           btn_callback_data := u "q|cancel|" ++ token |} ]].

(** The entries [purge_expired_jobs] keeps at the instant [t]. *)
Definition live_at (t : Q) (kv : str * PendingJob) : Prop :=
  Qle_bool (job_expires_at kv.2) t = false.

#[local] Instance live_at_dec t kv : Decision (live_at t kv).
Proof. unfold live_at. apply _. Defined.

Section Handlers.
Context (env : Env) (cfg : Config).
#[local] Open Scope monad_scope.

(** A pipeline function run by a handler. *)
Definition lift {A} (m : M World A) : M Bot A :=
  fun b =>
    let '(r, w) := m (world b) in
    (r, {| world := w; pending_jobs := pending_jobs b;
           chat_locks := chat_locks b |}).

Definition get_pending : M Bot (gmap str PendingJob) :=
  fun b => (Ok (pending_jobs b), b).

Definition modify_pending
           (f : gmap str PendingJob -> gmap str PendingJob) : M Bot unit :=
  fun b => (Ok tt, {| world := world b; pending_jobs := f (pending_jobs b);
                      chat_locks := chat_locks b |}).

Definition modify_locks (f : gmap Z bool -> gmap Z bool) : M Bot unit :=
  fun b => (Ok tt, {| world := world b; pending_jobs := pending_jobs b;
                      chat_locks := f (chat_locks b) |}).

Definition purge_expired_jobs : M Bot unit :=
  t <- lift (now env) ;;
  modify_pending (filter (live_at t)).

(** [get_lock(chat_id)]: the lock of the chat, created on first use. *)
Definition get_lock (chat_id : Z) : M Bot unit :=
  modify_locks (fun l => match l !! chat_id with
                         | Some _ => l
                         | None => <[chat_id := false]> l
                         end).

(** [lock.locked()] *)
Definition locked (chat_id : Z) : M Bot bool :=
  fun b => (Ok (match chat_locks b !! chat_id with
                | Some true => true
                | _ => false
                end), b).

(** Entering and leaving [async with lock]. *)
Definition acquire (chat_id : Z) : M Bot unit :=
  modify_locks (<[chat_id := true]>).
Definition release (chat_id : Z) : M Bot unit :=
  modify_locks (<[chat_id := false]>).

(** [async with lock: body] *)
Definition async_with_lock {A} (chat_id : Z) (body : M Bot A) : M Bot A :=
  acquire chat_id ;; try_finally body (release chat_id).

(** The guard both handlers share:
    [lock = get_lock(chat_id)], [if lock.locked(): busy; return],
    [async with lock: body]. *)
Definition guard_chat (chat_id : Z) (busy body : M Bot unit) : M Bot unit :=
  get_lock chat_id ;;
  held <- locked chat_id ;;
  if held then busy else async_with_lock chat_id body.

(** [await call.answer(text, show_alert=alert)] *)
Definition answer (text : str) (alert : bool) : M Bot unit :=
  lift (transport env (EvAnswer text alert)) ;; ret tt.

(** [await message.reply(text)]: the message sent. *)
Definition reply (message : Message) (text : str) : M Bot Message :=
  id <- lift (transport env (EvReply (msg_chat_id message) text)) ;;
  ret {| msg_chat_id := msg_chat_id message; msg_message_id := id;
         msg_from_user := None; msg_text := text |}.

(** The [except Exception as e] clause of [handle_text]. *)
Definition report_failure (status : Message) (e : Exn) : M Bot unit :=
  if is_timeout_error e
  then lift (safe_edit_text env status TXT_TIMEOUT None)
  else lift (safe_edit_text env status (txt_fail e) None).

(** The same clause in [on_quality_choice], where a failure to report is
    passed over. *)
Definition report_failure_quietly (status : Message) (e : Exn)
  : M Bot unit :=
  try_except (report_failure status e) (fun _ => ret tt).

Definition plan_has_menu (url : str) (plan : DownloadPlan) : bool :=
  match mode plan, info plan with
  | video, Some (_ :: _) => supports_quality_menu url
  | _, _ => false
  end.

(** The body of [async with lock] in [handle_text]. *)
Definition handle_text_body (message : Message) (url : str) : M Bot unit :=
  status <- reply message TXT_IN_PROGRESS ;;
  try_except
    (plan <- lift (precheck_plan env cfg url (MAX_FILE_MB cfg)
                     (DOWNLOAD_DIR cfg)) ;;
     if plan_has_menu url plan then
       let avail_heights :=
         match info plan with
         | Some inf => extract_available_heights inf
         | None => []
         end in
       let menu_heights := pick_menu_heights avail_heights in
       hex <- lift (uuid4 env) ;;
       let token := firstn 12 hex in
       t <- lift (now env) ;;
       modify_pending
         (<[token := {| job_token := token;
                        job_chat_id := msg_chat_id message;
                        job_user_id := match msg_from_user message with
                                       | Some uid => uid
                                       | None => 0
                                       end;
                        job_url := url;
                        job_title := title plan;
                        job_description := description plan;
                        job_created_at := t;
                        job_expires_at :=
                          (t + inject_Z (QUALITY_MENU_TTL_SEC cfg))%Q;
                        job_status_message_id := msg_message_id status |}]>) ;;
       lift (safe_edit_text env status TXT_CHOOSE
               (Some (build_quality_keyboard token menu_heights)))
     else
       lift (process_download_and_send env cfg (msg_chat_id message) url
               status plan (u "best")))
    (report_failure status).

Definition handle_text (message : Message) : M Bot unit :=
  match URL_RE_search env (strip (msg_text message)) with
  | None => ret tt
  | Some url =>
      guard_chat (msg_chat_id message)
           (reply message TXT_BUSY ;; ret tt)
           (handle_text_body message url)
  end.

(** [call.from_user and call.from_user.id == job.user_id] *)
Definition owns (call : CallbackQuery) (job : PendingJob) : bool :=
  match call_from_user call with
  | Some uid => uid =? job_user_id job
  | None => false
  end.

(** The part of [on_quality_choice] that comes before the lock: the purge,
    the checks of the token and of the user, the removal of the token.
    It returns the job and the choice to carry out, if any. *)
Definition resolve_choice (call : CallbackQuery)
  : M Bot (option (PendingJob * str)) :=
  purge_expired_jobs ;;
  match split_max PIPE 2 (match call_data call with
                          | Some d => d
                          | None => []
                          end) with
  | [_; choice; token] =>
      jobs <- get_pending ;;
      match jobs !! token with
      | None => answer TXT_STALE true ;; ret None
      | Some job =>
          if negb (owns call job) then answer TXT_FOREIGN true ;; ret None
          else if str_eqb choice (u "cancel") then
            modify_pending (delete token) ;;
            answer TXT_CANCELLED false ;;
            try_except
              (match call_message call with
               | Some m => lift (safe_edit_text env m TXT_CANCELLED_STATUS
                                   None)
               | None => raise (AttributeError
                                  (u "'NoneType' object has no attribute 'edit_text'"))
               end)
              (fun _ => ret tt) ;;
            ret None
          else
            modify_pending (delete token) ;;
            answer TXT_IN_PROGRESS false ;;
            ret (Some (job, choice))
      end
  | _ => answer TXT_INVALID true ;; ret None
  end.

(** The body of [async with lock] in [on_quality_choice]. *)
Definition quality_body (call : CallbackQuery) (job : PendingJob)
           (choice : str) : M Bot unit :=
  match call_message call with
  | None => ret tt
  | Some status_msg =>
      try_except
        (lift (process_download_and_send env cfg (job_chat_id job)
                 (job_url job) status_msg
                 {| mode := video; title := job_title job;
                    description := job_description job; info := None |}
                 choice))
        (report_failure_quietly status_msg)
  end.

Definition on_quality_choice (call : CallbackQuery) : M Bot unit :=
  r <- resolve_choice call ;;
  match r with
  | None => ret tt
  | Some (job, choice) =>
      guard_chat (job_chat_id job)
           (answer TXT_BUSY true)
           (quality_body call job choice)
  end.

End Handlers.

(* ===================================================================== *)
(** * Handlers running together *)
(* ===================================================================== *)

(** The event loop runs one handler at a time and switches between them
    where one awaits.  A handler is thus a coroutine; run on a state, it
    either ends or stops at an await:
    - [Fin r]: it has ended, with a result or an exception;
    - [Susp inside k]: it is suspended; [k] is the rest of it, to be run
      on the state it is resumed in, and [inside] is the chat whose
      pipeline it is executing, if it is suspended inside one. *)
Inductive Coro (A : Type) : Type :=
| Fin (r : Result A)
| Susp (inside : option Z) (k : Bot -> Coro A * Bot).
Arguments Fin {A} r.
Arguments Susp {A} inside k.

Definition Co (A : Type) : Type := Bot -> Coro A * Bot.

(** Code that runs without awaiting. *)
Definition atomic {A} (m : M Bot A) : Co A :=
  fun b => let '(r, b') := m b in (Fin r, b').

(** An await at which the event loop may run other handlers. *)
Definition suspend (inside : option Z) : Co unit :=
  fun b => (Susp inside (fun b' => (Fin (Ok tt), b')), b).

Definition co_ret {A} (a : A) : Co A := fun b => (Fin (Ok a), b).

Fixpoint bind_coro {A B} (c : Coro A) (f : A -> Co B) : Co B :=
  match c with
  | Fin (Ok a) => f a
  | Fin (Raise e) => fun b => (Fin (Raise e), b)
  | Susp inside k =>
      fun b => (Susp inside (fun b1 => let '(c', b2) := k b1 in
                                       bind_coro c' f b2), b)
  end.

Definition co_bind {A B} (m : Co A) (f : A -> Co B) : Co B :=
  fun b => let '(c, b') := m b in bind_coro c f b'.

(** [try: m finally: f], where [f] does not await. *)
Fixpoint finally_coro {A} (c : Coro A) (f : M Bot unit) : Co A :=
  match c with
  | Fin r =>
      fun b => match f b with
               | (Ok _, b') => (Fin r, b')
               | (Raise e, b') => (Fin (Raise e), b')
               end
  | Susp inside k =>
      fun b => (Susp inside (fun b1 => let '(c', b2) := k b1 in
                                       finally_coro c' f b2), b)
  end.

Definition co_try_finally {A} (m : Co A) (f : M Bot unit) : Co A :=
  fun b => let '(c, b') := m b in finally_coro c f b'.

(** The coroutine run to its end with no other handler in between. *)
Fixpoint complete {A} (c : Coro A) (b : Bot) : Result A * Bot :=
  match c with
  | Fin r => (r, b)
  | Susp _ k => let '(c', b') := k b in complete c' b'
  end.

Definition alone {A} (m : Co A) : M Bot A :=
  fun b => let '(c, b') := m b in complete c b'.

Declare Scope co_scope.
Delimit Scope co_scope with co.
Notation "x <- c1 ;; c2" := (co_bind c1 (fun x => c2))
  (at level 100, c1 at next level, right associativity) : co_scope.
Notation "c1 ;; c2" := (co_bind c1 (fun _ => c2))
  (at level 100, right associativity) : co_scope.

(** The two handlers as coroutines: the same code as above, with the
    places where it awaits.  What matters to the chat locks is where a
    handler stands with respect to [async with lock]:
    - [lock.locked()] and the entry into [async with lock] have no await
      between them, and acquiring a free [asyncio.Lock] does not suspend;
    - [on_quality_choice] awaits [call.answer] after it has removed the
      token and before it fetches the lock: other handlers may run there;
    - the body of [async with lock] awaits the transport and the tools;
      it never touches [chat_locks], so that one suspension at its start
      stands for all of its awaits, its effects being those of the body
      run in the state it is resumed in;
    - leaving [async with lock] releases the lock without awaiting. *)
Module Async.
Section Handlers.
Context (env : Env) (cfg : Config).
#[local] Open Scope co_scope.

(** [async with lock: body] *)
Definition async_with_lock {A} (chat_id : Z) (body : Co A) : Co A :=
  atomic (acquire chat_id) ;; co_try_finally body (release chat_id).

(** [lock = get_lock(chat_id)], [if lock.locked(): busy; return],
    [async with lock: body]. *)
Definition guard_chat (chat_id : Z) (busy : M Bot unit) (body : Co unit)
  : Co unit :=
  atomic (get_lock chat_id) ;;
  held <- atomic (locked chat_id) ;;
  if held then atomic busy else async_with_lock chat_id body.

(** A pipeline execution for the chat: the body of [async with lock]. *)
Definition pipeline (chat_id : Z) (body : M Bot unit) : Co unit :=
  suspend (Some chat_id) ;; atomic body.

Definition handle_text (message : Message) : Co unit :=
  match URL_RE_search env (strip (msg_text message)) with
  | None => co_ret tt
  | Some url =>
      guard_chat (msg_chat_id message)
        (reply env message TXT_BUSY ;; ret tt)%monad
        (pipeline (msg_chat_id message)
           (handle_text_body env cfg message url))
  end.

Definition on_quality_choice (call : CallbackQuery) : Co unit :=
  r <- atomic (resolve_choice env call) ;;
  match r with
  | None => co_ret tt
  | Some (job, choice) =>
      suspend None ;;
      guard_chat (job_chat_id job)
        (answer env TXT_BUSY true)
        (pipeline (job_chat_id job) (quality_body env cfg call job choice))
  end.

End Handlers.
End Async.

(** A handler that is suspended. *)
Definition Task : Type := Coro unit.

(** The state of the process and the handlers that are suspended. *)
Record Sys := {
  bot : Bot;
  tasks : list Task
}.

(** The chat whose pipeline the task is executing, if it is suspended
    inside one. *)
Definition task_chat (t : Task) : option Z :=
  match t with
  | Susp inside _ => inside
  | Fin _ => None
  end.

(** The number of pipeline executions in flight for a chat. *)
Definition in_flight (chat : Z) (s : Sys) : nat :=
  length (filter (fun t => task_chat t = Some chat) (tasks s)).

(** The lock of the chat is held. *)
Definition lock_held (chat : Z) (b : Bot) : Prop :=
  chat_locks b !! chat = Some true.

Definition run {A} (m : M Bot A) (b : Bot) : Bot := (m b).2.

Definition init_bot (f : FS) : Bot :=
  {| world := {| fs := f; trace := [] |};
     pending_jobs := ∅;
     chat_locks := ∅ |}.

(** A coroutine that has stopped joins the suspended handlers, unless it
    has ended; an exception that leaves a handler is logged by the
    dispatcher, and the handler is over. *)
Definition park (c : Coro unit) (ts : list Task) : list Task :=
  match c with
  | Fin _ => ts
  | Susp _ _ => c :: ts
  end.

Section System.
Context (env : Env) (cfg : Config).

(** The event loop: a text arrives and [handle_text] runs up to its first
    await, a callback arrives and [on_quality_choice] does, or a suspended
    handler is resumed and runs up to its next await. *)
Inductive step : Sys -> Sys -> Prop :=
| step_text b ts message :
    step {| bot := b; tasks := ts |}
         {| bot := (Async.handle_text env cfg message b).2;
            tasks := park (Async.handle_text env cfg message b).1 ts |}
| step_callback b ts call :
    step {| bot := b; tasks := ts |}
         {| bot := (Async.on_quality_choice env cfg call b).2;
            tasks := park (Async.on_quality_choice env cfg call b).1 ts |}
| step_resume b ts1 ts2 inside k :
    step {| bot := b; tasks := ts1 ++ Susp inside k :: ts2 |}
         {| bot := (k b).2; tasks := ts1 ++ park (k b).1 ts2 |}.

(** The states the process can be in, from a start with no lock, no
    pending menu and no handler running. *)
Definition reachable (s : Sys) : Prop :=
  exists f, rtc step {| bot := init_bot f; tasks := [] |} s.

End System.

(* ===================================================================== *)
(** * The vocabulary of the properties *)
(* ===================================================================== *)

(** The claim's words: [h] is a positive height of a format of the document
    that carries a video codec. *)
Definition carries_video_codec (f : dict) : Prop :=
  dict_get f (u "vcodec") <> JNull
  /\ dict_get f (u "vcodec") <> JStr (u "none").

Definition is_video_height (info : dict) (h : Z) : Prop :=
  exists fmts f,
    dict_get info (u "formats") = JList fmts
    /\ JDict f ∈ fmts
    /\ carries_video_codec f
    /\ as_int (dict_get f (u "height")) = Some h
    /\ 0 < h.

(** [emits tr P Q m]: whatever the state, [m] appends to the trace only
    events that satisfy [P], and a value it returns satisfies [Q]. *)
Definition emits {S A} (tr : S -> list Event) (P : Event -> Prop)
           (Q : A -> Prop) (m : M S A) : Prop :=
  forall s, exists evs,
    tr (m s).2 = tr s ++ evs
    /\ Forall P evs
    /\ forall a, (m s).1 = Ok a -> Q a.

(** [m] leaves the trace as it is. *)
Definition silent {S A} (tr : S -> list Event) (Q : A -> Prop) (m : M S A)
  : Prop :=
  emits tr (fun _ => False) Q m.

(** The configuration does not make [-f] the value of an option. *)
Definition sane_config (cfg : Config) : Prop :=
  YTDLP_IMPERSONATE cfg <> u "-f" /\ YTDLP_REMOTE_COMPONENTS cfg <> u "-f".

(** The cookie file a job works with, when there is one, is its own copy
    in its working directory. *)
Definition cookies_copy_in (work_dir : Path) (c : option Path) : Prop :=
  c = None \/ c = Some (path_join work_dir (u "instagram.cookies.txt")).

(** A command line of the primary tool without a format filter. *)
Definition no_format_filter (ev : Event) : Prop :=
  forall args, ev = EvCmd args -> head args = Some (u "yt-dlp") ->
               u "-f" ∉ args.

(** A command line of the primary tool, other than the query of its
    version, with the format filter [fmt] and no other. *)
Definition has_format_filter (fmt : str) (ev : Event) : Prop :=
  forall args, ev = EvCmd args -> head args = Some (u "yt-dlp") ->
               args = [u "yt-dlp"; u "--version"]
               \/ exists pre post,
                    args = pre ++ [u "-f"; fmt] ++ post
                    /\ (u "-f" ∉ pre) /\ (u "-f" ∉ post).

(** The claim's words: best video up to the height merged with best
    audio, else best combined stream up to the height, else best overall
    up to the height. *)
Definition three_tier_selector (h : Z) : str :=
  let bound := u "[height<=" ++ dec_Z h ++ u "]" in
  u "bv*" ++ bound ++ u "+ba" ++ u "/" ++ u "b" ++ bound ++ u "/"
    ++ u "best" ++ bound.

(** The items with their captions: the caption, when there is one, goes
    with the first item, and no other item has one. *)
Definition captioned (items : list Path) (caption : str)
  : list InputMedia :=
  imap (fun i p => {| media_path := p;
                      media_caption := if (i =? 0)%nat
                                       then caption_or_none caption
                                       else None |})
       items.

(** The state after a call to the transport. *)
Definition logged (ev : Event) (b : Bot) : Bot :=
  {| world := log_event ev (world b);
     pending_jobs := pending_jobs b;
     chat_locks := chat_locks b |}.

(** The state after the purge made at the start of a resolution. *)
Definition purged (env : Env) (b : Bot) : Bot :=
  {| world := world b;
     pending_jobs :=
       filter (live_at (time_time env (trace (world b)))) (pending_jobs b);
     chat_locks := chat_locks b |}.

(** A job is expired at the instant [t]. *)
Definition expired_at (t : Q) (job : PendingJob) : Prop :=
  (job_expires_at job <= t)%Q.

(** The data of the callback name a choice and a token. *)
Definition names (call : CallbackQuery) (choice token : str) : Prop :=
  exists q, split_max PIPE 2 (match call_data call with
                              | Some d => d
                              | None => []
                              end) = [q; choice; token].

(** The state after the token is removed from the registry. *)
Definition popped (token : str) (b : Bot) : Bot :=
  {| world := world b;
     pending_jobs := delete token (pending_jobs b);
     chat_locks := chat_locks b |}.

(** [m] does not touch the chat locks. *)
Definition keeps_locks {A} (m : M Bot A) : Prop :=
  forall b, chat_locks (m b).2 = chat_locks b.

Definition count_chat (chat : Z) (ts : list Task) : nat :=
  length (filter (fun t => task_chat t = Some chat) ts).

(** The lock of a chat is held exactly when one pipeline is in flight for
    it, and there is never more than one. *)
Definition lock_invariant (s : Sys) : Prop :=
  forall chat,
    (in_flight chat s <= 1)%nat
    /\ (lock_held chat (bot s) <-> in_flight chat s = 1%nat).

(** A task suspended inside the pipeline of [chat]: resumed, it ends, and
    the lock of the chat is free, the other locks being as they were. *)
Definition in_pipeline (chat : Z) (t : Task) : Prop :=
  exists k,
    t = Susp (Some chat) k
    /\ forall b, (exists r, (k b).1 = Fin r)
                 /\ chat_locks (k b).2 = <[chat := false]> (chat_locks b).

(** A task suspended before it fetches the lock of [chat]: resumed while
    the lock is held, it ends and leaves the locks as they are; resumed
    while the lock is free, it takes the lock and is suspended inside the
    pipeline of the chat. *)
Definition at_lock (chat : Z) (t : Task) : Prop :=
  exists k,
    t = Susp None k
    /\ forall b,
         (lock_held chat b ->
          (exists r, (k b).1 = Fin r) /\ chat_locks (k b).2 = chat_locks b)
         /\ (~ lock_held chat b ->
             in_pipeline chat (k b).1
             /\ forall d, lock_held d (k b).2 <-> d = chat \/ lock_held d b).

(** The suspended handlers are of these two kinds. *)
Definition known_task (t : Task) : Prop :=
  exists chat, in_pipeline chat t \/ at_lock chat t.

(** What holds of every state the process can reach. *)
Definition sys_invariant (s : Sys) : Prop :=
  Forall known_task (tasks s) /\ lock_invariant s.

(* ===================================================================== *)
(** * Scenarios: concrete collaborators, to run the model on *)
(* ===================================================================== *)

Module Scenario.

(** A job id as [uuid4().hex] gives them. *)
Definition JOB : str := u "0123456789abcdef0123456789abcdef".

(** Collaborators given by the answers of the subprocesses and of the
    transport; the clock stands at [t]; the only text taken for a URL is
    one that starts with [http]. *)
Definition make_env
           (cmd : list Event -> list str -> FS -> Result (Z * str * str) * FS)
           (tr : list Event -> Event -> Result Z) (t : Q) : Env :=
  {| run_cmd_oracle := cmd;
     transport_oracle := tr;
     uuid4_hex := fun _ => JOB;
     time_time := fun _ => t;
     json_loads := fun _ => Raise (ValueError (u "Expecting value"));
     py_str := fun _ => [];
     URL_RE_search := fun s => if startswith (lower s) (u "http")
                               then Some s else None |}.

(** A transport that accepts every call. *)
Definition transport_ok : list Event -> Event -> Result Z :=
  fun _ _ => Ok 7.

(** A primary tool that writes one video of 1000 bytes under the output
    template it is given, and exits with 0. *)
Definition writes_video (name : str)
  : list Event -> list str -> FS -> Result (Z * str * str) * FS :=
  fun _ _ f => (Ok (0, [], []), <[name := File 1000]> f).

Definition VIDEO : Path := u "/data/" ++ JOB ++ u ".001.clip.mp4".

Definition env_video : Env := make_env (writes_video VIDEO) transport_ok 0.

Definition w0 : World := {| fs := ∅; trace := [] |}.

End Scenario.

(** The document of the claim's example. *)
Definition fmt_of (h : Z) (vcodec : string) : json :=
  JDict [(u "format_id", JStr (dec_Z h)); (u "height", JInt h);
         (u "vcodec", JStr (u vcodec))].

Definition example_info : dict :=
  [(u "title", JStr (u "clip"));
   (u "formats",
    JList [JDict [(u "format_id", JStr (u "140")); (u "vcodec", JStr (u "none"))];
           fmt_of 240 "avc1"; fmt_of 480 "avc1"; fmt_of 720 "vp9";
           fmt_of 1080 "vp9"; fmt_of 720 "avc1"])].

Module Fallback.
Import Scenario.

Definition POST : str := u "https://www.instagram.com/p/Cxyz/".
Definition NO_FORMATS_ERR : str :=
  u "ERROR: [Instagram] Cxyz: No video formats found!".
Definition PHOTO : Path := u "/data/gdl_" ++ JOB ++ u "/instagram/user/1.jpg".

Definition is_primary (args : list str) : bool :=
  match args with
  | tool :: _ => str_eqb tool (u "yt-dlp")
  | [] => false
  end.

(** The primary tool finds no formats; the secondary tool fetches one
    photo. *)
Definition cmd_secondary_ok
  : list Event -> list str -> FS -> Result (Z * str * str) * FS :=
  fun _ args f =>
    if is_primary args then (Ok (1, [], NO_FORMATS_ERR), f)
    else (Ok (0, [], []), <[PHOTO := File 2000]> f).

(** The primary tool finds no formats; the secondary tool fails too. *)
Definition cmd_both_fail
  : list Event -> list str -> FS -> Result (Z * str * str) * FS :=
  fun _ args f =>
    if is_primary args then (Ok (1, [], NO_FORMATS_ERR), f)
    else (Ok (1, [], u "[instagram][error] HttpError: 401"), f).

Definition env_secondary_ok : Env := make_env cmd_secondary_ok transport_ok 0.
Definition env_both_fail : Env := make_env cmd_both_fail transport_ok 0.

End Fallback.

Module Delivery.
Import Scenario.

Definition TIKTOK : str := u "https://www.tiktok.com/@user/video/7301".

Definition request : Message :=
  {| msg_chat_id := 5; msg_message_id := 1; msg_from_user := Some 42;
     msg_text := TIKTOK |}.

(** The primary tool answers the query of its version, and writes one
    video of 1000 bytes when it is given an output template. *)
Definition cmd_download
  : list Event -> list str -> FS -> Result (Z * str * str) * FS :=
  fun _ args f =>
    if str_in (u "-o") args
    then (Ok (0, [], []), <[VIDEO := File 1000]> (<[u "/data" := Dir]> f))
    else (Ok (0, u "2025.01.01", []), f).

(** A transport that refuses every video. *)
Definition too_large : Exn :=
  {| exn_is_timeout := false;
     exn_msg := u "Telegram server says - Request Entity Too Large" |}.

Definition transport_refuses_video : list Event -> Event -> Result Z :=
  fun _ ev =>
    match ev with
    | EvSendVideo _ _ _ => Raise too_large
    | _ => Ok 7
    end.

Definition env_sent : Env := make_env cmd_download transport_ok 0.
Definition env_refused : Env :=
  make_env cmd_download transport_refuses_video 0.

(** The secondary tool writes one photo two directories below the
    directory of the job, as it does with its default layout. *)
Definition GDL : Path := u "/data/gdl_" ++ JOB.
Definition PIN : str := u "https://pin.it/4abcDEF".
Definition PIN_PHOTO : Path := GDL ++ u "/pinterest/user/1.jpg".

Definition cmd_gallery
  : list Event -> list str -> FS -> Result (Z * str * str) * FS :=
  fun _ _ f =>
    (Ok (0, [], []),
     <[PIN_PHOTO := File 2000]>
       (<[GDL ++ u "/pinterest/user" := Dir]>
          (<[GDL ++ u "/pinterest" := Dir]> f))).

Definition env_gallery : Env := make_env cmd_gallery transport_ok 0.

Definition pin_request : Message :=
  {| msg_chat_id := 5; msg_message_id := 1; msg_from_user := Some 42;
     msg_text := PIN |}.

End Delivery.

Module Menu.
Import Scenario.

Definition TOKEN : str := u "0123456789ab".

Definition job : PendingJob :=
  {| job_token := TOKEN; job_chat_id := 5; job_user_id := 42;
     job_url := u "https://vimeo.com/1"; job_title := u "clip";
     job_description := []; job_created_at := 0; job_expires_at := 600;
     job_status_message_id := 7 |}.

Definition status : Message :=
  {| msg_chat_id := 5; msg_message_id := 7; msg_from_user := None;
     msg_text := TXT_CHOOSE |}.

(** The owner, and another member of the chat, press 720p. *)
Definition press (uid : Z) : CallbackQuery :=
  {| call_data := Some (u "q|720p|" ++ TOKEN);
     call_from_user := Some uid;
     call_message := Some status |}.

(** The menu is open; the lock of the chat is free, or held. *)
Definition bot_with_menu (held : bool) : Bot :=
  {| world := w0;
     pending_jobs := {[ TOKEN := job ]};
     chat_locks := {[ 5 := held ]} |}.

(** The clock stands at 100 s, before the expiry, or at 700 s, after. *)
Definition env_at (t : Q) : Env := make_env (writes_video VIDEO) transport_ok t.

End Menu.


(* ===================================================================== *)
(** * More of the vocabulary, and helpers of the start-up *)
(* ===================================================================== *)





(** A collaborator whose [json.loads] shows the text it is given. *)
Definition env_echo : Env :=
  {| run_cmd_oracle := fun _ _ f => (Ok (0, [], []), f);
     transport_oracle := fun _ _ => Ok 7;
     uuid4_hex := fun _ => Scenario.JOB;
     time_time := fun _ => 0%Q;
     json_loads := fun s => Ok [(u "text", JStr s)];
     py_str := fun _ => [];
     URL_RE_search := fun s => Some s |}.


(** The buckets of [process_download_and_send]. *)
Definition images_of (downloaded : list Path) : list Path :=
  List.filter is_image_file downloaded.
Definition others_of (downloaded : list Path) : list Path :=
  List.filter (fun p => negb (str_in p (images_of downloaded))) downloaded.
Definition videos_of (downloaded : list Path) : list Path :=
  List.filter is_video (others_of downloaded).
Definition audios_of (downloaded : list Path) : list Path :=
  List.filter is_audio (others_of downloaded).
Definition non_media_docs_of (downloaded : list Path) : list Path :=
  List.filter (fun p => negb (str_in p (videos_of downloaded))
                        && negb (str_in p (audios_of downloaded)))
              (others_of downloaded).







(** A probe that prints a document of 5 MB, under one line of log. *)
Definition probe_doc : dict :=
  [(u "title", JStr (u "  Clip  ")); (u "description", JNull);
   (u "filesize_approx", JInt 5242880);
   (u "formats", JList [fmt_of 720 "avc1"; fmt_of 360 "avc1"])].

Definition env_probe (t : Q) : Env :=
  {| run_cmd_oracle :=
       fun _ args f =>
         if str_in (u "--dump-single-json") args
         then (Ok (0, u "WARNING: slow" ++ NL ++ u "{}", []), f)
         else (Ok (0, [], []), <[Scenario.VIDEO := File 1000]> f);
     transport_oracle := fun _ _ => Ok 7;
     uuid4_hex := fun _ => Scenario.JOB;
     time_time := fun _ => t;
     json_loads := fun _ => Ok probe_doc;
     py_str := fun _ => [];
     URL_RE_search := fun s => if startswith (lower s) (u "http")
                               then Some s else None |}.














(* ===================================================================== *)
(* ===================================================================== *)
(** * Properties *)
(* ===================================================================== *)
(* ===================================================================== *)

Example u_ascii : u "-f" = [45%N; 102%N].
Proof. reflexivity. Qed.

Example u_ellipsis : u "…" = [8230%N].
Proof. reflexivity. Qed.

Example dec_1200 : dec_Z 1200 = u "1200".
Proof. reflexivity. Qed.

Example lower_url : lower (u "HTTPS://TikTok.com/A") = u "https://tiktok.com/a".
Proof. reflexivity. Qed.

Example strip_ex : strip (u "  a b  ") = u "a b".
Proof. reflexivity. Qed.

(* ===================================================================== *)
(** * Captions ([build_caption]) *)
(* ===================================================================== *)

Section Rstrip.

Lemma rstrip_nil_iff (s : str) :
  rstrip s = [] <-> Forall (fun c => isspace c = true) s.
Proof.
  induction s as [|c r IH]; simpl.
  - split; [constructor | reflexivity].
  - destruct (rstrip r) as [|x r'] eqn:E.
    + destruct (isspace c) eqn:Ec; split; intros H; try discriminate.
      * constructor; [exact Ec | apply IH; reflexivity].
      * reflexivity.
      * inversion H; subst. congruence.
    + split; intros H; [discriminate|].
      inversion H; subst.
      assert (x :: r' = []) by (apply IH; assumption). discriminate.
Qed.

(** What [rstrip] removes is white space at the end. *)
Lemma rstrip_decompose (s : str) :
  exists ws, s = rstrip s ++ ws /\ Forall (fun c => isspace c = true) ws.
Proof.
  induction s as [|c r IH]; simpl.
  - exists []. split; [reflexivity | constructor].
  - destruct IH as (ws & Hr & Hws).
    destruct (rstrip r) as [|x r'] eqn:E.
    + simpl in Hr. subst ws.
      destruct (isspace c) eqn:Ec.
      * exists (c :: r). split; [reflexivity | constructor; assumption].
      * exists r. split; [reflexivity | assumption].
    + exists ws. split; [|assumption].
      rewrite Hr at 1. reflexivity.
Qed.

Lemma rstrip_prefix (s : str) : rstrip s `prefix_of` s.
Proof. destruct (rstrip_decompose s) as (ws & H & _). exists ws. exact H. Qed.

Lemma rstrip_length (s : str) : (length (rstrip s) <= length s)%nat.
Proof. apply prefix_length, rstrip_prefix. Qed.

(** The result of [rstrip] does not end with white space. *)
Lemma rstrip_last (s : str) (c : N) :
  last (rstrip s) = Some c -> isspace c = false.
Proof.
  revert c. induction s as [|a r IH]; simpl; intros c H; [discriminate|].
  destruct (rstrip r) as [|x r'] eqn:E.
  - destruct (isspace a) eqn:Ea; simpl in H; [discriminate|].
    injection H as <-. exact Ea.
  - apply IH. rewrite <- H. reflexivity.
Qed.

(** A string that does not end with white space is left as it is. *)
Lemma rstrip_id (s : str) :
  (forall c, last s = Some c -> isspace c = false) -> rstrip s = s.
Proof.
  induction s as [|a r IH]; simpl; intros H; [reflexivity|].
  destruct r as [|b r'].
  - simpl. rewrite (H a); reflexivity.
  - rewrite IH; [reflexivity|]. intros c Hc. apply H. exact Hc.
Qed.

End Rstrip.

Lemma utf8_encode_app (a b : str) :
  utf8_encode (a ++ b) = utf8_encode a ++ utf8_encode b.
Proof. apply flat_map_app. Qed.

Example ellipsis_is_one_character : length ELLIPSIS = 1%nat.
Proof. reflexivity. Qed.

Example ellipsis_is_three_bytes :
  utf8_encode ELLIPSIS = [226%N; 128%N; 166%N].
Proof. reflexivity. Qed.

Example build_caption_short :
  build_caption (u "  Title ") (u "") CAPTION_MAX = u "Title".
Proof. reflexivity. Qed.

Example build_caption_prefers_description :
  build_caption (u "Title") (u " Описание ") CAPTION_MAX = u "Описание".
Proof. reflexivity. Qed.

(** C7, as the claim states it, fails: the text [a bc] has four characters,
    the maximum is three, and the caption built has two characters, because
    the space the cut leaves at the end is stripped before the marker is
    added. *)
Lemma build_caption_not_exact :
  let text := caption_text (u "") (u "a bc") in
  3 < Z.of_nat (length text)
  /\ build_caption (u "") (u "a bc") 3 = u "a…"
  /\ Z.of_nat (length (build_caption (u "") (u "a bc") 3)) <> 3.
Proof. vm_compute. repeat split; congruence. Qed.

(** The same with the default maximum of 1024 characters. *)
Lemma default_maximum_not_exact :
  let description := u "a" ++ repeat 32%N 1022 ++ u "bc" in
  CAPTION_MAX < Z.of_nat (length (caption_text (u "") description))
  /\ build_caption (u "") description CAPTION_MAX = u "a…".
Proof. vm_compute. split; reflexivity. Qed.

(** C7 (amended).  For a maximum of at least one character: text longer than
    the maximum becomes a prefix of the text, without white space at its end,
    followed by the one-character marker; the whole has at most the maximum
    length, and exactly the maximum length when the cut does not leave white
    space at the end.  The caption is made of whole characters of the text:
    its UTF-8 encoding is the encoding of that prefix followed by the three
    bytes of the marker.  Text at or below the maximum is returned as it
    is. *)
Theorem build_caption_truncates (title description : str) (max_len : Z) :
  1 <= max_len ->
  let text := caption_text title description in
  let caption := build_caption title description max_len in
  (max_len < Z.of_nat (length text) ->
     exists body rest,
       caption = body ++ ELLIPSIS
       /\ text = body ++ rest
       /\ (forall c, last body = Some c -> isspace c = false)
       /\ Z.of_nat (length caption) <= max_len
       /\ ((forall c, last (firstn (Z.to_nat (max_len - 1)) text) = Some c ->
                      isspace c = false) ->
           Z.of_nat (length caption) = max_len)
       /\ utf8_encode caption = utf8_encode body ++ [226%N; 128%N; 166%N]
       /\ utf8_encode text = utf8_encode body ++ utf8_encode rest)
  /\ (Z.of_nat (length text) <= max_len -> caption = text).
Proof.
  intros Hmax text caption. subst caption. unfold build_caption.
  fold text. split.
  - intros Hlong.
    destruct (Z.ltb_spec max_len (Z.of_nat (length text))) as [_|?]; [|lia].
    unfold slice_upto.
    destruct (Z.leb_spec 0 (max_len - 1)) as [_|?]; [|lia].
    set (cut := firstn (Z.to_nat (max_len - 1)) text).
    assert (Hcutlen : length cut = Z.to_nat (max_len - 1)).
    { subst cut. apply length_take_le. lia. }
    destruct (rstrip_prefix cut) as [ws Hws].
    destruct (prefix_take text (Z.to_nat (max_len - 1))) as [tl Htl].
    fold cut in Htl.
    exists (rstrip cut), (ws ++ tl).
    assert (Hlen : (length (rstrip cut) <= length cut)%nat)
      by apply rstrip_length.
    repeat split.
    + rewrite Htl at 1. rewrite Hws at 1. rewrite <- app_assoc. reflexivity.
    + apply rstrip_last.
    + rewrite length_app. change (length ELLIPSIS) with 1%nat. lia.
    + intros Hns. rewrite (rstrip_id cut Hns), length_app.
      change (length ELLIPSIS) with 1%nat. lia.
    + rewrite utf8_encode_app. reflexivity.
    + rewrite Htl at 1. rewrite Hws at 1.
      rewrite <- app_assoc. apply utf8_encode_app.
  - intros Hshort.
    destruct (Z.ltb_spec max_len (Z.of_nat (length text))) as [?|_]; [lia|].
    reflexivity.
Qed.

Lemma build_caption_truncates_witness :
  let text := caption_text (u "") (u "a bc") in
  let caption := build_caption (u "") (u "a bc") 3 in
  (3 < Z.of_nat (length text) ->
     exists body rest,
       caption = body ++ ELLIPSIS
       /\ text = body ++ rest
       /\ (forall c, last body = Some c -> isspace c = false)
       /\ Z.of_nat (length caption) <= 3
       /\ ((forall c, last (firstn (Z.to_nat (3 - 1)) text) = Some c ->
                      isspace c = false) ->
           Z.of_nat (length caption) = 3)
       /\ utf8_encode caption = utf8_encode body ++ [226%N; 128%N; 166%N]
       /\ utf8_encode text = utf8_encode body ++ utf8_encode rest)
  /\ (Z.of_nat (length text) <= 3 -> caption = text).
Proof. apply (build_caption_truncates (u "") (u "a bc") 3). lia. Defined.

(* ===================================================================== *)
(** * The quality menu ([extract_available_heights], [pick_menu_heights]) *)
(* ===================================================================== *)

Section SortFacts.
Context {A : Type} (le : A -> A -> bool).

Lemma insert_by_perm (x : A) (l : list A) : insert_by le x l ≡ₚ x :: l.
Proof.
  induction l as [|y r IH]; simpl; [reflexivity|].
  destruct (le x y); [reflexivity|].
  rewrite IH. apply Permutation_swap.
Qed.

Lemma sort_by_perm (l : list A) : sort_by le l ≡ₚ l.
Proof.
  induction l as [|x r IH]; simpl; [reflexivity|].
  rewrite insert_by_perm, IH. reflexivity.
Qed.

Lemma elem_of_sort_by (x : A) (l : list A) : x ∈ sort_by le l <-> x ∈ l.
Proof. rewrite sort_by_perm. reflexivity. Qed.

Lemma sort_by_length (l : list A) : length (sort_by le l) = length l.
Proof. rewrite sort_by_perm. reflexivity. Qed.
End SortFacts.


Lemma str_eqb_false (a b : str) : str_eqb a b = false <-> a <> b.
Proof. unfold str_eqb. destruct (decide (a = b)); split; congruence. Qed.

Lemma vcodec_is_none_false (v : json) :
  vcodec_is_none v = false <-> v <> JNull /\ v <> JStr (u "none").
Proof.
  destruct v; simpl; try (split; [split; discriminate | reflexivity]).
  - split; [discriminate | intros [H _]; congruence].
  - rewrite str_eqb_false. split.
    + intros H. split; [discriminate | congruence].
    + intros [_ H] ->. apply H. reflexivity.
Qed.

Lemma format_height_Some (f : json) (h : Z) :
  format_height f = Some h <->
  exists d, f = JDict d /\ carries_video_codec d
            /\ as_int (dict_get d (u "height")) = Some h /\ 0 < h.
Proof.
  unfold carries_video_codec. split.
  - destruct f; simpl; try discriminate.
    destruct (vcodec_is_none _) eqn:Ev; [discriminate|].
    destruct (as_int _) as [n|] eqn:Eh; [|discriminate].
    destruct (Z.ltb_spec 0 n); [|discriminate].
    intros [= <-]. exists d. apply vcodec_is_none_false in Ev.
    repeat split; solve [tauto | assumption].
  - intros (d & -> & Hv & Hh & Hpos). simpl.
    apply vcodec_is_none_false in Hv. rewrite Hv, Hh.
    destruct (Z.ltb_spec 0 h); [reflexivity | lia].
Qed.

(** The list [extract_available_heights] returns holds the video heights of
    the document, each once. *)
Lemma extract_available_heights_spec (info : dict) (h : Z) :
  h ∈ extract_available_heights info <-> is_video_height info h.
Proof.
  unfold extract_available_heights, is_video_height, heights_set.
  destruct (dict_get info (u "formats")) as [| | | | |fmts|] eqn:E;
    try solve [split; [intros H; inversion H | intros (? & ? & [=] & _)]].
  rewrite elem_of_sort_by, elem_of_elements, elem_of_list_to_set.
  rewrite list_elem_of_omap. split.
  - intros (f & Hin & Hf). apply format_height_Some in Hf.
    destruct Hf as (d & -> & Hv & Hh & Hpos).
    exists fmts, d. tauto.
  - intros (fmts' & d & [= <-] & Hin & Hv & Hh & Hpos).
    exists (JDict d). split; [assumption|].
    apply format_height_Some. exists d. tauto.
Qed.


Lemma pick_menu_heights_spec (available : list Z) (h : Z) :
  h ∈ pick_menu_heights available <-> h ∈ wanted /\ h ∈ available.
Proof.
  unfold pick_menu_heights. rewrite list_elem_of_filter, elem_of_list_to_set.
  tauto.
Qed.

Example example_available :
  extract_available_heights example_info = [1080; 720; 480; 240].
Proof. vm_compute. reflexivity. Qed.

Example example_menu :
  pick_menu_heights (extract_available_heights example_info)
  = [1080; 720; 480].
Proof. vm_compute. reflexivity. Qed.

(** A format without a video codec adds no height, whatever its height
    field says. *)
Example audio_only_excluded :
  extract_available_heights
    [(u "formats",
      JList [JDict [(u "height", JInt 1080); (u "vcodec", JStr (u "none"))];
             JDict [(u "height", JInt 720)];
             JDict [(u "height", JInt 360); (u "vcodec", JStr (u "avc1"))]])]
  = [360].
Proof. vm_compute. reflexivity. Qed.

(** C6.  The heights of the menu are the heights of the preference list
    1080, 720, 480, 360 that are video heights of the document, in the order
    of the preference list and without repetition; a document whose video
    heights are 1080, 720, 480 and 240 gives exactly 1080, 720, 480. *)
Theorem quality_menu_heights (info : dict) :
  let menu := pick_menu_heights (extract_available_heights info) in
  (forall h, h ∈ menu <-> h ∈ [1080; 720; 480; 360] /\ is_video_height info h)
  /\ menu `sublist_of` [1080; 720; 480; 360]
  /\ ((forall h, is_video_height info h <-> h ∈ [1080; 720; 480; 240]) ->
      menu = [1080; 720; 480]).
Proof.
  intros menu. subst menu. split; [|split].
  - intros h. split.
    + intros H. apply pick_menu_heights_spec in H.
      rewrite <- extract_available_heights_spec. exact H.
    + intros [Hw Hv]. apply pick_menu_heights_spec. split; [exact Hw|].
      apply extract_available_heights_spec. exact Hv.
  - apply sublist_filter.
  - intros Hdoc. unfold pick_menu_heights, wanted.
    assert (Hin : forall h, h ∈ (list_to_set (extract_available_heights info)
                                   : gset Z)
                            <-> h ∈ [1080; 720; 480; 240]).
    { intros h. rewrite elem_of_list_to_set, extract_available_heights_spec.
      apply Hdoc. }
    rewrite filter_cons_True by (apply Hin; repeat constructor).
    rewrite filter_cons_True by (apply Hin; repeat constructor).
    rewrite filter_cons_True by (apply Hin; repeat constructor).
    rewrite filter_cons_False; [reflexivity|].
    rewrite Hin. intros H.
    repeat (apply elem_of_cons in H as [H|H]; [discriminate|]).
    inversion H.
Qed.

Lemma quality_menu_heights_witness :
  (forall h, is_video_height example_info h <-> h ∈ [1080; 720; 480; 240])
  /\ pick_menu_heights (extract_available_heights example_info)
     = [1080; 720; 480].
Proof.
  assert (H : forall h, is_video_height example_info h
                        <-> h ∈ [1080; 720; 480; 240]).
  { intros h. rewrite <- extract_available_heights_spec.
    replace (extract_available_heights example_info)
      with [1080; 720; 480; 240] by (vm_compute; reflexivity).
    reflexivity. }
  split; [exact H|].
  exact (proj2 (proj2 (quality_menu_heights example_info)) H).
Defined.

(* ===================================================================== *)
(** * A logic of traces for the monad of coroutines *)
(* ===================================================================== *)

Section Logic.
Context {S : Type} (tr : S -> list Event).
#[local] Open Scope monad_scope.

Lemma emits_weaken {A} (P P' : Event -> Prop) (Q Q' : A -> Prop) m :
  emits tr P Q m -> (forall ev, P ev -> P' ev) -> (forall a, Q a -> Q' a) ->
  emits tr P' Q' m.
Proof.
  intros H HP HQ s. destruct (H s) as (evs & Ht & Hf & Hq).
  exists evs. repeat split; [assumption | | auto].
  eapply Forall_impl; eauto.
Qed.

Lemma silent_emits {A} (P : Event -> Prop) (Q : A -> Prop) m :
  silent tr Q m -> emits tr P Q m.
Proof. intros H. eapply emits_weaken; eauto. intros ? []. Qed.

Lemma silent_trace {A} (Q : A -> Prop) (m : M S A) s :
  silent tr Q m -> tr (m s).2 = tr s.
Proof.
  intros H. destruct (H s) as (evs & Ht & Hf & _).
  destruct evs as [|ev evs]; [rewrite Ht; apply app_nil_r|].
  inversion Hf; subst. contradiction.
Qed.

Lemma emits_ret {A} (P : Event -> Prop) (Q : A -> Prop) (a : A) :
  Q a -> emits tr P Q (ret a).
Proof.
  intros H s. exists []. simpl. rewrite app_nil_r.
  repeat split; [constructor|]. intros ? [= <-]. exact H.
Qed.

Lemma emits_raise {A} (P : Event -> Prop) (Q : A -> Prop) e :
  emits tr P Q (raise e).
Proof.
  intros s. exists []. simpl. rewrite app_nil_r.
  repeat split; [constructor|]. intros ? [=].
Qed.

Lemma emits_bind {A B} (P : Event -> Prop) (Q : A -> Prop) (R : B -> Prop)
      (m : M S A) (k : A -> M S B) :
  emits tr P Q m -> (forall a, Q a -> emits tr P R (k a)) ->
  emits tr P R (bind m k).
Proof.
  intros Hm Hk s. unfold bind.
  destruct (Hm s) as (evs & Ht & Hf & Hq).
  destruct (m s) as [[a|e] s1]; simpl in *.
  - destruct (Hk a (Hq a eq_refl) s1) as (evs' & Ht' & Hf' & Hq').
    exists (evs ++ evs'). rewrite Ht', Ht, app_assoc.
    repeat split; [apply Forall_app; auto | exact Hq'].
  - exists evs. repeat split; [assumption.. |]. intros ? [=].
Qed.

Lemma emits_try_except {A} (P : Event -> Prop) (Q Q' : A -> Prop)
      (m : M S A) (h : Exn -> M S A) :
  emits tr P Q' m -> (forall a, Q' a -> Q a) -> (forall e, emits tr P Q (h e)) ->
  emits tr P Q (try_except m h).
Proof.
  intros Hm HQ Hh s. unfold try_except.
  destruct (Hm s) as (evs & Ht & Hf & Hq).
  destruct (m s) as [[a|e] s1]; simpl in *.
  - exists evs. repeat split; [assumption.. |]. intros ? [= <-]. auto.
  - destruct (Hh e s1) as (evs' & Ht' & Hf' & Hq').
    exists (evs ++ evs'). rewrite Ht', Ht, app_assoc.
    repeat split; [apply Forall_app; auto | exact Hq'].
Qed.

Lemma emits_try_finally {A} (P : Event -> Prop) (Q : A -> Prop)
      (m : M S A) (f : M S unit) :
  emits tr P Q m -> emits tr P (fun _ => True) f ->
  emits tr P Q (try_finally m f).
Proof.
  intros Hm Hf s. unfold try_finally.
  destruct (Hm s) as (evs & Ht & Hfa & Hq).
  destruct (m s) as [r s1]; simpl in *.
  destruct (Hf s1) as (evs' & Ht' & Hfa' & _).
  destruct (f s1) as [[[]|e] s2]; simpl in *.
  - exists (evs ++ evs'). rewrite Ht', Ht, app_assoc.
    repeat split; [apply Forall_app; auto | exact Hq].
  - exists (evs ++ evs'). rewrite Ht', Ht, app_assoc.
    repeat split; [apply Forall_app; auto |]. intros ? [=].
Qed.

Lemma emits_for_each {A} (P : Event -> Prop) (l : list A)
      (body : A -> M S unit) :
  (forall x, x ∈ l -> emits tr P (fun _ => True) (body x)) ->
  emits tr P (fun _ => True) (for_each l body).
Proof.
  induction l as [|x r IH]; simpl; intros H.
  - apply emits_ret. exact I.
  - eapply emits_bind; [apply H; constructor|].
    intros _ _. apply IH. intros y Hy. apply H. constructor. exact Hy.
Qed.

Lemma emits_for_enumerate {A} (P : Event -> Prop) (l : list A) i
      (body : nat -> A -> M S unit) :
  (forall j x, emits tr P (fun _ => True) (body j x)) ->
  emits tr P (fun _ => True) (for_enumerate i l body).
Proof.
  intros H. revert i. induction l as [|x r IH]; simpl; intros i.
  - apply emits_ret. exact I.
  - eapply emits_bind; [apply H|]. intros _ _. apply IH.
Qed.

Lemma emits_if {A} (P : Event -> Prop) (Q : A -> Prop) (c : bool)
      (m1 m2 : M S A) :
  (c = true -> emits tr P Q m1) -> (c = false -> emits tr P Q m2) ->
  emits tr P Q (if c then m1 else m2).
Proof. destruct c; auto. Qed.

End Logic.

(** ** The primitives *)

Section PrimitiveRules.
Context (env : Env).

Lemma emits_run_cmd (P : Event -> Prop) args :
  P (EvCmd args) -> emits trace P (fun _ => True) (run_cmd env args).
Proof.
  intros H w. exists [EvCmd args]. unfold run_cmd.
  destruct (run_cmd_oracle env (trace w) args (fs w)) as [r f'].
  simpl. repeat split; auto.
Qed.

Lemma emits_transport (P : Event -> Prop) ev :
  P ev -> emits trace P (fun _ => True) (transport env ev).
Proof. intros H w. exists [ev]. simpl. repeat split; auto. Qed.

Lemma emits_uuid4 (P : Event -> Prop) :
  P EvUuid -> emits trace P (fun _ => True) (uuid4 env).
Proof. intros H w. exists [EvUuid]. simpl. repeat split; auto. Qed.

Lemma emits_sleep (P : Event -> Prop) n :
  P (EvSleep n) -> emits trace P (fun _ => True) (sleep n).
Proof. intros H w. exists [EvSleep n]. simpl. repeat split; auto. Qed.

Lemma silent_now : silent trace (fun _ => True) (now env).
Proof. intros w. exists []. simpl. rewrite app_nil_r. repeat split; auto. Qed.

Lemma silent_get_fs : silent trace (fun _ => True) get_fs.
Proof. intros w. exists []. simpl. rewrite app_nil_r. repeat split; auto. Qed.

Lemma silent_modify_fs f : silent trace (fun _ => True) (modify_fs f).
Proof. intros w. exists []. simpl. rewrite app_nil_r. repeat split; auto. Qed.

End PrimitiveRules.

(* ===================================================================== *)
(** * The command lines of the primary tool *)
(* ===================================================================== *)

(** Breaks [H : x ∈ l1 ++ [a; b; ...] ++ ...] into its cases and closes
    those where [x] is compared with a different literal. *)
Ltac literal_ne H :=
  first [ congruence
        | solve [ exfalso; subst;
                  match goal with Hne : _ <> _ |- _ => apply Hne; reflexivity end ]
        | exfalso; vm_compute in H; discriminate H ].

Ltac elem_cases H :=
  repeat match type of H with
         | _ ∈ _ ++ _ => apply elem_of_app in H as [H|H]
         | _ ∈ (if ?c then _ else _) => destruct c
         | _ ∈ match ?c with Some _ => _ | None => _ end => destruct c
         | _ ∈ _ :: _ => apply elem_of_cons in H as [H|H]; [try literal_ne H|]
         | _ ∈ [] => inversion H
         end.

Lemma last_app_nonempty {A} (l1 l2 : list A) x :
  last l2 = Some x -> last (l1 ++ l2) = Some x.
Proof. intros H. rewrite last_app, H. reflexivity. Qed.

(** A string that ends otherwise than [-f] is not [-f]. *)
Lemma ends_ne_f (s : str) (tl : str) (c : N) :
  last tl = Some c -> c <> 102%N -> u "-f" <> s ++ tl.
Proof.
  intros Hl Hc Heq.
  apply (f_equal (@last N)) in Heq.
  rewrite (last_app_nonempty _ _ _ Hl) in Heq.
  vm_compute in Heq. congruence.
Qed.

Section Args.
Context (cfg : Config).

Lemma common_args_no_f (url : str) (cookies : option Path) :
  sane_config cfg -> cookies <> Some (u "-f") ->
  u "-f" ∉ yt_dlp_common_args cfg url cookies.
Proof.
  intros [Hi Hr] Hc Hin. unfold yt_dlp_common_args in Hin.
  elem_cases Hin.
Qed.

Lemma cookies_copy_ne_f (work_dir : Path) :
  Some (path_join work_dir (u "instagram.cookies.txt")) <> Some (u "-f").
Proof.
  intros [= H]. symmetry in H. revert H. unfold path_join.
  rewrite app_assoc. apply (ends_ne_f _ _ 116%N); [reflexivity | lia].
Qed.

Lemma outtmpl_ne_f out_dir job_id : u "-f" <> outtmpl_of out_dir job_id.
Proof.
  unfold outtmpl_of, path_join. rewrite !app_assoc.
  apply (ends_ne_f _ _ 115%N); [reflexivity | lia].
Qed.

Lemma max_filesize_ne_f n : u "-f" <> dec_Z n ++ u "M".
Proof. apply (ends_ne_f _ _ 77%N); [reflexivity | lia]. Qed.

Lemma fmt_of_choice_best : fmt_of_choice (u "best") = None.
Proof. reflexivity. Qed.

(** A choice made of digits and the letter p is neither [best] nor
    [mp3], and its filter is the selector of the height it names. *)
Lemma isdigit_head (digits : str) :
  isdigit digits = true ->
  exists d r, digits = d :: r /\ is_ascii_digit d = true.
Proof.
  destruct digits as [|d r]; [discriminate|]. simpl.
  intros H. apply andb_prop in H as [H _]. eauto.
Qed.

Lemma digits_p_not_keyword (digits kw : str) (k : N) (r : str) :
  isdigit digits = true -> kw = k :: r -> is_ascii_digit k = false ->
  str_eqb (digits ++ u "p") kw = false.
Proof.
  intros Hd -> Hk. apply str_eqb_false.
  destruct (isdigit_head _ Hd) as (d & r' & -> & Hdig).
  intros [= -> _]. congruence.
Qed.

Lemma removelast_snoc {A} (l : list A) (x : A) : removelast (l ++ [x]) = l.
Proof. apply removelast_last. Qed.

Lemma endswith_snoc (s : str) (c : N) : endswith (s ++ [c]) [c] = true.
Proof.
  unfold endswith. rewrite rev_app_distr. simpl. rewrite N.eqb_refl.
  destruct (rev s); reflexivity.
Qed.

Lemma fmt_of_choice_height (digits : str) :
  isdigit digits = true ->
  fmt_of_choice (digits ++ u "p")
  = Some (fmt_selector_for_height (int_of_digits digits)).
Proof.
  intros Hd. unfold fmt_of_choice.
  rewrite (digits_p_not_keyword digits (u "best") 98%N (u "est"))
    by (reflexivity || assumption).
  change (u "p") with [112%N].
  rewrite endswith_snoc, removelast_snoc, Hd. reflexivity.
Qed.

End Args.

(* ===================================================================== *)
(** * What the download executor invokes *)
(* ===================================================================== *)

Section Invocations.
Context (env : Env) (cfg : Config).
#[local] Open Scope monad_scope.

Lemma silent_prepare_writable_cookies work_dir :
  silent trace (cookies_copy_in work_dir)
         (prepare_writable_cookies cfg work_dir).
Proof.
  unfold prepare_writable_cookies.
  eapply emits_bind; [apply silent_get_fs|]. intros f _.
  destruct (resolve_cookies_source cfg f) as [src|].
  - eapply emits_bind; [apply silent_modify_fs|]. intros _ _.
    eapply emits_bind; [apply silent_modify_fs|]. intros _ _.
    apply emits_ret. right. reflexivity.
  - apply emits_ret. left. reflexivity.
Qed.

Lemma silent_collect_candidates out_dir job_id :
  silent trace (fun _ => True) (collect_candidates out_dir job_id).
Proof.
  unfold collect_candidates.
  eapply emits_bind; [apply silent_get_fs|]. intros f _.
  destruct (match glob_prefix f out_dir job_id with
            | [] => rglob_prefix f out_dir job_id
            | _ => glob_prefix f out_dir job_id
            end); [apply emits_raise | apply emits_ret; exact I].
Qed.

Lemma emits_run_gallery_dl (P : Event -> Prop) url out_dir :
  P EvUuid ->
  (forall job_dir c, P (EvCmd (gallery_dl_args url job_dir c))) ->
  emits trace P (fun _ => True) (run_gallery_dl_download env cfg url out_dir).
Proof.
  intros Hu Hc. unfold run_gallery_dl_download.
  eapply emits_bind; [apply emits_uuid4, Hu|]. intros job_id _.
  eapply emits_bind; [apply silent_emits, silent_modify_fs|]. intros _ _.
  eapply emits_bind;
    [apply silent_emits, silent_prepare_writable_cookies|].
  intros c _.
  eapply emits_bind; [apply emits_run_cmd, Hc|].
  intros [[rc out] err] _.
  destruct (negb (rc =? 0)); [apply emits_raise|].
  eapply emits_bind; [apply silent_emits, silent_get_fs|]. intros f _.
  destruct (sort_by_name _); [apply emits_raise | apply emits_ret; exact I].
Qed.

Lemma emits_download_setup (P : Event -> Prop) url out_dir :
  P EvUuid ->
  P (EvCmd [u "yt-dlp"; u "--version"]) ->
  emits trace P
        (fun jc => exists c, cookies_copy_in out_dir c
                             /\ jc.2 = yt_dlp_common_args cfg url c)
        (download_setup env cfg url out_dir).
Proof.
  intros Hu Hv. unfold download_setup.
  eapply emits_bind; [apply emits_uuid4, Hu|]. intros job_id _.
  eapply emits_bind;
    [apply silent_emits, silent_prepare_writable_cookies|].
  intros c Hcookies.
  eapply emits_bind with (Q := fun _ => True).
  { destruct (is_tiktok url); [|apply emits_ret; exact I].
    eapply emits_try_except with (Q' := fun _ => True); auto.
    - eapply emits_bind; [apply emits_run_cmd, Hv|].
      intros _ _. apply emits_ret. exact I.
    - intros e. apply emits_ret. exact I. }
  intros _ _. apply emits_ret. exists c. auto.
Qed.

Lemma emits_run_yt_dlp (P : Event -> Prop) url out_dir max_file_mb mode_
      quality_choice :
  P EvUuid ->
  P (EvCmd [u "yt-dlp"; u "--version"]) ->
  (forall job_id c, cookies_copy_in out_dir c ->
     P (EvCmd (primary_args (yt_dlp_common_args cfg url c) mode_
                 quality_choice max_file_mb
                 (outtmpl_of out_dir job_id) url))) ->
  (forall job_dir c, P (EvCmd (gallery_dl_args url job_dir c))) ->
  emits trace P (fun _ => True)
        (run_yt_dlp_download env cfg url out_dir max_file_mb mode_
           quality_choice).
Proof.
  intros Hu Hv Hd Hg. unfold run_yt_dlp_download.
  eapply emits_bind; [apply emits_download_setup; assumption|].
  intros [job_id common] (c & Hcookies & Hcommon). simpl in Hcommon.
  subst common. specialize (Hd job_id c Hcookies).
  unfold primary_args in Hd.
  destruct (str_eqb quality_choice (u "mp3")).
  - eapply emits_bind; [apply emits_run_cmd, Hd|].
    intros [[rc out] err] _.
    destruct (negb (rc =? 0)); [apply emits_raise|].
    apply silent_emits, silent_collect_candidates.
  - eapply emits_bind; [apply emits_run_cmd, Hd|].
    intros [[rc out] err] _.
    destruct (negb (rc =? 0)).
    + destruct (_ && _); [|apply emits_raise].
      apply emits_run_gallery_dl; assumption.
    + apply silent_emits, silent_collect_candidates.
Qed.

(** ** C8 *)

Lemma fmt_selector_three_tier h :
  fmt_selector_for_height h = three_tier_selector h.
Proof.
  unfold fmt_selector_for_height, three_tier_selector.
  rewrite <- !app_assoc. reflexivity.
Qed.

Lemma fmt_selector_nonempty h :
  exists c r, fmt_selector_for_height h = c :: r.
Proof. unfold fmt_selector_for_height. simpl. eauto. Qed.

Lemma video_args_best_no_f common max_file_mb out_dir job_id url :
  u "-f" ∉ common -> url <> u "-f" ->
  u "-f" ∉ download_args common video (u "best") max_file_mb
             (outtmpl_of out_dir job_id) url.
Proof.
  intros Hc Hu Hin. unfold download_args, video_args in Hin.
  rewrite fmt_of_choice_best in Hin.
  pose proof (outtmpl_ne_f out_dir job_id).
  pose proof (max_filesize_ne_f max_file_mb).
  elem_cases Hin. contradiction.
Qed.

Lemma video_args_height common max_file_mb out_dir job_id url digits :
  isdigit digits = true -> u "-f" ∉ common -> url <> u "-f" ->
  exists pre post,
    download_args common video (digits ++ u "p") max_file_mb
      (outtmpl_of out_dir job_id) url
    = pre ++ [u "-f"; three_tier_selector (int_of_digits digits)] ++ post
    /\ (u "-f" ∉ pre) /\ (u "-f" ∉ post).
Proof.
  intros Hd Hc Hu. unfold download_args, video_args.
  rewrite (fmt_of_choice_height digits Hd).
  destruct (fmt_selector_nonempty (int_of_digits digits)) as (c & r & E).
  rewrite <- fmt_selector_three_tier, E. rewrite <- E.
  exists ([u "yt-dlp"] ++ common),
    [u "--max-filesize"; dec_Z max_file_mb ++ u "M";
     u "--merge-output-format"; u "mp4"; u "-o";
     outtmpl_of out_dir job_id; url].
  split; [rewrite <- !app_assoc; reflexivity|].
  pose proof (outtmpl_ne_f out_dir job_id).
  pose proof (max_filesize_ne_f max_file_mb).
  split; intros Hin; elem_cases Hin; contradiction.
Qed.

End Invocations.

Example path_functions :
  path_name Scenario.VIDEO = Scenario.JOB ++ u ".001.clip.mp4"
  /\ path_parent Scenario.VIDEO = u "/data"
  /\ path_suffix Scenario.VIDEO = u ".mp4"
  /\ path_suffix (u "/data/.hidden") = []
  /\ path_suffix (u "/data/a.tar.GZ") = u ".GZ"
  /\ guess_send_method Scenario.VIDEO = SmVideo
  /\ is_image_file (u "/data/x/Photo.JPEG") = true.
Proof. vm_compute. repeat split. Qed.

(** The command line of a download of the best quality, and of a download
    at 720p. *)
Example invocation_best :
  trace (run_yt_dlp_download Scenario.env_video default_config
           (u "https://vimeo.com/1") (u "/data") 1900 video (u "best")
           Scenario.w0).2
  = [EvUuid;
     EvCmd [u "yt-dlp"; u "--no-playlist"; u "--restrict-filenames";
            u "--no-progress"; u "--max-filesize"; u "1900M";
            u "--merge-output-format"; u "mp4"; u "-o";
            u "/data/0123456789abcdef0123456789abcdef.%(autonumber)03d.%(title).200s.%(ext)s";
            u "https://vimeo.com/1"]].
Proof. vm_compute. reflexivity. Qed.

Example invocation_720p :
  trace (run_yt_dlp_download Scenario.env_video default_config
           (u "https://vimeo.com/1") (u "/data") 1900 video (u "720p")
           Scenario.w0).2
  = [EvUuid;
     EvCmd [u "yt-dlp"; u "--no-playlist"; u "--restrict-filenames";
            u "--no-progress"; u "-f";
            u "bv*[height<=720]+ba/b[height<=720]/best[height<=720]";
            u "--max-filesize"; u "1900M";
            u "--merge-output-format"; u "mp4"; u "-o";
            u "/data/0123456789abcdef0123456789abcdef.%(autonumber)03d.%(title).200s.%(ext)s";
            u "https://vimeo.com/1"]].
Proof. vm_compute. reflexivity. Qed.

Example download_result :
  (run_yt_dlp_download Scenario.env_video default_config
     (u "https://vimeo.com/1") (u "/data") 1900 video (u "best")
     Scenario.w0).1
  = Ok [Scenario.VIDEO].
Proof. vm_compute. reflexivity. Qed.

(** C8.  In video mode, with a configuration and a URL that are not
    themselves the flag, a download of the choice [best] issues no command
    line of the primary tool that holds [-f]; a download of a choice made of
    digits and the letter p issues, apart from the query of the tool's
    version, only command lines that hold [-f] once, followed by the
    three-tier selector of that height. *)
Theorem format_filter_of_quality_choice
        (env : Env) (cfg : Config) (url : str) (out_dir : Path)
        (max_file_mb : Z) :
  sane_config cfg -> url <> u "-f" ->
  emits trace no_format_filter (fun _ => True)
        (run_yt_dlp_download env cfg url out_dir max_file_mb video (u "best"))
  /\ forall digits, isdigit digits = true ->
       emits trace
             (has_format_filter (three_tier_selector (int_of_digits digits)))
             (fun _ => True)
             (run_yt_dlp_download env cfg url out_dir max_file_mb video
                (digits ++ u "p")).
Proof.
  intros Hcfg Hurl. split.
  - apply emits_run_yt_dlp.
    + intros args [=].
    + intros args [= <-] _ Hin. elem_cases Hin.
    + intros job_id c Hc. unfold primary_args.
      change (str_eqb (u "best") (u "mp3")) with false. cbv iota.
      intros args [= <-] _. apply video_args_best_no_f; [|assumption].
      apply common_args_no_f; [assumption|].
      destruct Hc as [-> | ->]; [discriminate | apply cookies_copy_ne_f].
    + intros job_dir c args [= <-] Hhd. vm_compute in Hhd. discriminate Hhd.
  - intros digits Hd. apply emits_run_yt_dlp.
    + intros args [=].
    + intros args [= <-] _. left. reflexivity.
    + intros job_id c Hc. unfold primary_args.
      rewrite (digits_p_not_keyword digits (u "mp3") 109%N (u "p3"))
        by (reflexivity || assumption).
      intros args [= <-] _. right.
      apply video_args_height; [assumption | | assumption].
      apply common_args_no_f; [assumption|].
      destruct Hc as [-> | ->]; [discriminate | apply cookies_copy_ne_f].
    + intros job_dir c args [= <-] Hhd. vm_compute in Hhd. discriminate Hhd.
Qed.

Lemma format_filter_of_quality_choice_witness :
  emits trace no_format_filter (fun _ => True)
        (run_yt_dlp_download Scenario.env_video default_config
           (u "https://vimeo.com/1") (u "/data") 1900 video (u "best"))
  /\ forall digits, isdigit digits = true ->
       emits trace
             (has_format_filter (three_tier_selector (int_of_digits digits)))
             (fun _ => True)
             (run_yt_dlp_download Scenario.env_video default_config
                (u "https://vimeo.com/1") (u "/data") 1900 video
                (digits ++ u "p")).
Proof.
  apply (format_filter_of_quality_choice Scenario.env_video default_config
           (u "https://vimeo.com/1") (u "/data") 1900).
  - split; vm_compute; discriminate.
  - vm_compute. discriminate.
Defined.

(* ===================================================================== *)
(** * Media groups ([send_media_group_photos], [send_media_group_videos]) *)
(* ===================================================================== *)

Section Batches.

(** The indices [range(0, n, 10)] start every batch inside the list. *)
Lemma range_step_10_lt (n idx : nat) :
  idx ∈ range_step n 10 -> (idx < n)%nat.
Proof.
  unfold range_step. intros H.
  apply list_elem_of_In, in_map_iff in H as (k & <- & Hk).
  apply in_seq in Hk.
  pose proof (Nat.div_mod_eq (n + 10 - 1) 10).
  pose proof (Nat.mod_upper_bound (n + 10 - 1) 10).
  lia.
Qed.

Lemma range_step_10_covers (n : nat) :
  (n <= (n + 10 - 1) / 10 * 10)%nat.
Proof.
  pose proof (Nat.div_mod_eq (n + 10 - 1) 10).
  pose proof (Nat.mod_upper_bound (n + 10 - 1) 10).
  lia.
Qed.

(** Slices of ten taken at 0, 10, 20, ... put end to end give the list
    back. *)
Lemma chunks_prefix {A} (L : list A) (m : nat) :
  concat (map (fun idx => firstn 10 (skipn idx L))
              (map (fun k => (k * 10)%nat) (seq 0 m)))
  = firstn (m * 10) L.
Proof.
  induction m as [|m IH]; [reflexivity|].
  rewrite seq_S, !map_app, concat_app, IH. simpl.
  rewrite app_nil_r, take_take_drop. f_equal. lia.
Qed.

Lemma chunks_concat {A} (L : list A) :
  concat (map (fun idx => firstn 10 (skipn idx L))
              (range_step (length L) 10)) = L.
Proof.
  unfold range_step. rewrite chunks_prefix.
  apply take_ge, range_step_10_covers.
Qed.

Lemma media_batch_slice items caption idx :
  media_batch items caption idx
  = firstn 10 (skipn idx (captioned items caption)).
Proof.
  unfold media_batch, captioned. apply list_eq. intros j.
  rewrite list_lookup_imap.
  destruct (decide (j < 10)%nat) as [Hj|Hj].
  - rewrite !lookup_take_lt by assumption.
    rewrite !lookup_drop, list_lookup_imap.
    destruct (items !! (idx + j)%nat); [simpl|reflexivity].
    do 2 f_equal. destruct idx, j; reflexivity.
  - rewrite !lookup_take_ge by lia. reflexivity.
Qed.

Lemma captioned_paths items caption :
  map media_path (captioned items caption) = items.
Proof.
  unfold captioned. apply list_eq. intros i.
  rewrite list_lookup_fmap, list_lookup_imap.
  destruct (items !! i); reflexivity.
Qed.

Lemma captioned_captions items caption :
  map media_caption (captioned items caption)
  = match items with
    | [] => []
    | _ :: r => caption_or_none caption :: map (fun _ => None) r
    end.
Proof.
  unfold captioned. destruct items as [|p r]; [reflexivity|].
  simpl. f_equal. apply list_eq. intros i.
  rewrite !list_lookup_fmap, list_lookup_imap.
  destruct (r !! i); reflexivity.
Qed.

Context (env : Env).
#[local] Open Scope monad_scope.

Lemma transport_then {B} (ev : Event) (k : unit -> M World B) (w : World) :
  bind (bind (transport env ev) (fun _ => ret tt)) k w
  = match transport_oracle env (trace w) ev with
    | Ok _ => k tt (log_event ev w)
    | Raise e => (Raise e, log_event ev w)
    end.
Proof.
  unfold bind, transport, ret.
  destruct (transport_oracle env (trace w) ev); reflexivity.
Qed.

(** A loop of sends stops at the first that raises. *)
Lemma for_each_transport {A} (g : A -> Event) (l : list A) (w : World) :
  let r := for_each l (fun x => transport env (g x) ;; ret tt) w in
  fs r.2 = fs w
  /\ exists k,
       trace r.2 = trace w ++ map g (firstn k l)
       /\ (r.1 = Ok tt -> k = length l).
Proof.
  revert w. induction l as [|x l IH]; intros w; simpl.
  - split; [reflexivity|]. exists O. rewrite app_nil_r. auto.
  - rewrite transport_then.
    destruct (transport_oracle env (trace w) (g x)) as [z|e]; simpl.
    + destruct (IH (log_event (g x) w)) as (Hfs & k & Ht & Hk).
      split; [exact Hfs|]. exists (Datatypes.S k). simpl.
      rewrite Ht. simpl. rewrite <- app_assoc. split; [reflexivity|].
      intros H. f_equal. apply Hk, H.
    + split; [reflexivity|]. exists 1%nat. simpl.
      split; [reflexivity | discriminate].
Qed.

End Batches.

Example twelve_photos_events :
  let photos := map (fun i => u "/data/p" ++ dec_Z (Z.of_nat i) ++ u ".jpg")
                    (seq 1 12) in
  map (fun ev => match ev with
                 | EvSendMediaGroup MkPhoto 5 media =>
                     map (fun m => (length (media_path m),
                                    media_caption m)) media
                 | _ => []
                 end)
      (trace (send_media_group_photos Scenario.env_video 5 photos (u "hi")
                Scenario.w0).2)
  = [ [(12%nat, Some (u "hi"))] ++ repeat (12%nat, None) 8
      ++ [(13%nat, None)];
      [(13%nat, None); (13%nat, None)] ].
Proof. vm_compute. reflexivity. Qed.

(** C9.  The batches of a list of photos or of videos, put end to end, are
    the list, in its order; each batch has between one and ten items; the
    caption, when there is one, goes with the first item of the first batch
    and no other item has a caption; the media groups sent are these
    batches, in order, all of them unless a send raises; twelve items make a
    batch of the first ten and a batch of the last two. *)
Theorem media_groups_in_batches
        (env : Env) (kind : MediaKind) (chat_id : Z) (items : list Path)
        (caption : str) (w : World) :
  let batches :=
    map (media_batch items caption) (range_step (length items) 10) in
  let r := send_media_group env kind chat_id items caption w in
  map media_path (concat batches) = items
  /\ map media_caption (concat batches)
     = match items with
       | [] => []
       | _ :: rest => caption_or_none caption :: map (fun _ => None) rest
       end
  /\ Forall (fun b => (1 <= length b <= 10)%nat) batches
  /\ (exists k,
        trace r.2
        = trace w ++ map (EvSendMediaGroup kind chat_id) (firstn k batches)
        /\ (r.1 = Ok tt -> k = length batches))
  /\ (send_media_group_photos env = send_media_group env MkPhoto
      /\ send_media_group_videos env = send_media_group env MkVideo)
  /\ forall p1 p2 p3 p4 p5 p6 p7 p8 p9 p10 p11 p12 : Path,
       map (map media_path)
           (map (media_batch [p1; p2; p3; p4; p5; p6; p7; p8; p9; p10; p11; p12]
                             caption)
                (range_step 12 10))
       = [[p1; p2; p3; p4; p5; p6; p7; p8; p9; p10]; [p11; p12]].
Proof.
  intros batches r.
  assert (Hcat : concat batches = captioned items caption).
  { subst batches.
    rewrite (map_ext _ (fun idx => firstn 10 (skipn idx (captioned items caption))))
      by (intros; apply media_batch_slice).
    replace (length items) with (length (captioned items caption))
      by apply length_imap.
    apply chunks_concat. }
  split; [rewrite Hcat; apply captioned_paths|].
  split; [rewrite Hcat; apply captioned_captions|].
  split.
  { subst batches. apply Forall_forall. intros b Hb.
    apply list_elem_of_In, in_map_iff in Hb as (idx & <- & Hidx).
    apply list_elem_of_In, range_step_10_lt in Hidx.
    unfold media_batch. rewrite length_imap, length_take, length_drop. lia. }
  split.
  { subst r batches. unfold send_media_group.
    destruct (for_each_transport env
                (fun idx => EvSendMediaGroup kind chat_id
                              (media_batch items caption idx))
                (range_step (length items) 10) w) as (_ & k & Ht & Hk).
    exists k. rewrite <- fmap_take, map_map, length_map. auto. }
  split; [split; reflexivity|].
  intros. reflexivity.
Qed.

(* ===================================================================== *)
(** * The planner ([precheck_plan]) *)
(* ===================================================================== *)

Section Planner.
Context (env : Env) (cfg : Config).
#[local] Open Scope monad_scope.

(** Preparing the cookies always returns, touches the file system only,
    and gives the job's own copy. *)
Lemma prepare_writable_cookies_run (work_dir : Path) (w : World) :
  exists c f',
    prepare_writable_cookies cfg work_dir w
    = (Ok c, {| fs := f'; trace := trace w |})
    /\ cookies_copy_in work_dir c.
Proof.
  unfold prepare_writable_cookies, bind, get_fs, modify_fs, ret. simpl.
  destruct (resolve_cookies_source cfg (fs w)) as [src|]; simpl.
  - eexists _, _. split; [reflexivity | right; reflexivity].
  - exists None, (fs w). split; [destruct w; reflexivity | left; reflexivity].
Qed.

Lemma probe_flags url c :
  u "--dump-single-json" ∈ precheck_args cfg url c
  /\ u "--skip-download" ∈ precheck_args cfg url c.
Proof. unfold precheck_args. split; repeat constructor. Qed.

End Planner.

Example plan_instagram_post :
  precheck_plan Scenario.env_video default_config
    (u "https://www.instagram.com/p/Cxyz/") 1900 (u "/data") Scenario.w0
  = (Ok {| mode := photo; title := []; description := []; info := None |},
     Scenario.w0).
Proof. vm_compute. reflexivity. Qed.

Example plan_pinterest :
  precheck_plan Scenario.env_video default_config
    (u "https://pin.it/4abcDEF") 1900 (u "/data") Scenario.w0
  = (Ok {| mode := gallery; title := []; description := []; info := None |},
     Scenario.w0).
Proof. vm_compute. reflexivity. Qed.

Example plan_tiktok :
  precheck_plan Scenario.env_video default_config
    (u "https://vt.tiktok.com/ZS123/") 1900 (u "/data") Scenario.w0
  = (Ok {| mode := video; title := []; description := []; info := None |},
     Scenario.w0).
Proof. vm_compute. reflexivity. Qed.

Example plan_other_probes :
  trace (precheck_plan Scenario.env_video default_config
           (u "https://vimeo.com/1") 1900 (u "/data") Scenario.w0).2
  = [EvCmd [u "yt-dlp"; u "--dump-single-json"; u "--skip-download";
            u "--quiet"; u "--no-warnings"; u "--no-playlist";
            u "--restrict-filenames"; u "--no-progress";
            u "https://vimeo.com/1"]].
Proof. vm_compute. reflexivity. Qed.

(** C5, as the claim states it, fails: the address of a TikTok video whose
    author is named [pin.it] is classified as TikTok, and as Pinterest too;
    the plan has mode gallery, not video, because the test for Pinterest
    comes first. *)
Lemma tiktok_url_planned_as_gallery :
  let url := u "https://www.tiktok.com/@pin.it/video/7301" in
  is_tiktok url = true
  /\ exists plan,
       (precheck_plan Scenario.env_video default_config url 1900 (u "/data")
          Scenario.w0).1 = Ok plan
       /\ mode plan = gallery
       /\ mode plan <> video.
Proof.
  split; [vm_compute; reflexivity|].
  eexists. split; [vm_compute; reflexivity|].
  split; [reflexivity | discriminate].
Qed.

(** Likewise a Pinterest address that mentions an Instagram post is planned
    as photo. *)
Lemma pinterest_url_planned_as_photo :
  let url := u "https://pin.it/go?to=instagram.com/p/Cxyz" in
  is_pinterest url = true
  /\ (precheck_plan Scenario.env_video default_config url 1900 (u "/data")
        Scenario.w0).1
     = Ok {| mode := photo; title := []; description := []; info := None |}.
Proof. vm_compute. split; reflexivity. Qed.

(** C5 (amended).  For a URL classified as an Instagram single post, as
    Pinterest or as TikTok, the planner returns its plan and does nothing
    else (no probe, no change of the world); the three tests are made in
    this order and the first that holds decides the mode: photo for an
    Instagram single post, gallery for a Pinterest URL that is not one, video
    for a TikTok URL that is neither.  For every other URL the planner runs
    the metadata-only probe, once, and runs no other command. *)
Theorem plan_without_probe
        (env : Env) (cfg : Config) (url : str) (max_file_mb : Z)
        (download_dir : Path) (w : World) :
  let r := precheck_plan env cfg url max_file_mb download_dir w in
  if is_instagram_post url || is_pinterest url || is_tiktok url
  then r = (Ok {| mode := if is_instagram_post url then photo
                          else if is_pinterest url then gallery
                          else video;
                  title := []; description := []; info := None |}, w)
  else exists cookies,
         cookies_copy_in download_dir cookies
         /\ trace r.2 = trace w ++ [EvCmd (precheck_args cfg url cookies)]
         /\ u "--dump-single-json" ∈ precheck_args cfg url cookies
         /\ u "--skip-download" ∈ precheck_args cfg url cookies.
Proof.
  intros r. subst r. unfold precheck_plan.
  destruct (is_instagram_post url); [reflexivity|].
  destruct (is_pinterest url); [reflexivity|].
  destruct (is_tiktok url); [reflexivity|]. simpl.
  destruct (prepare_writable_cookies_run cfg download_dir w)
    as (c & f1 & Hprep & Hc).
  exists c. split; [exact Hc|]. split; [|apply probe_flags].
  unfold bind at 1. rewrite Hprep.
  unfold bind, run_cmd. simpl.
  destruct (run_cmd_oracle env (trace w) (precheck_args cfg url c) f1)
    as [[[[rc out] err]|e] f2]; simpl; [|reflexivity].
  destruct (negb (rc =? 0)); [reflexivity|].
  destruct (load_first_json env out) as [inf|e]; [|reflexivity].
  destruct (extract_estimated_size_bytes inf) as [size|]; [|reflexivity].
  destruct (exceeds_mb size max_file_mb); reflexivity.
Qed.

(* ===================================================================== *)
(** * Failure of the primary tool and the gallery fallback *)
(* ===================================================================== *)

Section Tail.

Lemma tail_1200_suffix (msg : str) : tail_1200 msg `suffix_of` msg.
Proof.
  unfold tail_1200, last_chars.
  destruct (1200 <? length msg)%nat; [|reflexivity].
  apply suffix_drop.
Qed.

Lemma tail_1200_length (msg : str) : (length (tail_1200 msg) <= 1200)%nat.
Proof.
  unfold tail_1200, last_chars.
  destruct (Nat.ltb_spec 1200 (length msg)); [|lia].
  rewrite length_drop. lia.
Qed.

Lemma tail_1200_long (msg : str) :
  (1200 < length msg)%nat -> length (tail_1200 msg) = 1200%nat.
Proof.
  intros H. unfold tail_1200, last_chars.
  destruct (Nat.ltb_spec 1200 (length msg)); [|lia].
  rewrite length_drop. lia.
Qed.

Lemma tail_1200_short (msg : str) :
  (length msg <= 1200)%nat -> tail_1200 msg = msg.
Proof.
  intros H. unfold tail_1200.
  destruct (Nat.ltb_spec 1200 (length msg)); [lia | reflexivity].
Qed.

End Tail.

Example fallback_returns_files :
  (run_yt_dlp_download Fallback.env_secondary_ok default_config Fallback.POST
     (u "/data") 1900 photo (u "best") Scenario.w0).1
  = Ok [Fallback.PHOTO].
Proof. vm_compute. reflexivity. Qed.

Example no_fallback_elsewhere :
  (run_yt_dlp_download Fallback.env_secondary_ok default_config
     (u "https://vimeo.com/1") (u "/data") 1900 video (u "best")
     Scenario.w0).1
  = Raise (RuntimeError (u "yt-dlp download error (code 1):" ++ NL
                           ++ Fallback.NO_FORMATS_ERR)).
Proof. vm_compute. reflexivity. Qed.

(** C4, as the claim states it, fails: for an Instagram single post the
    primary tool exits with 1 and the signature of missing formats, the
    gallery path is taken, the secondary tool exits with 1 too, and the
    executor raises the error of the gallery path instead of returning
    files. *)
Lemma fallback_may_raise :
  let r := run_yt_dlp_download Fallback.env_both_fail default_config
             Fallback.POST (u "/data") 1900 photo (u "best") Scenario.w0 in
  is_instagram_post Fallback.POST = true
  /\ contains NO_FORMATS (diagnostic [] Fallback.NO_FORMATS_ERR) = true
  /\ EvCmd (gallery_dl_args Fallback.POST (u "/data/gdl_" ++ Scenario.JOB) None)
       ∈ trace r.2
  /\ r.1 = Raise (RuntimeError
                    (u "gallery-dl error (code 1):" ++ NL
                       ++ u "[instagram][error] HttpError: 401")).
Proof.
  vm_compute. repeat split.
  do 2 constructor. constructor. constructor.
Qed.

(** The extraction of MP3 never falls back, whatever the URL and the
    failure. *)
Lemma mp3_never_falls_back :
  (run_yt_dlp_download Fallback.env_secondary_ok default_config Fallback.POST
     (u "/data") 1900 video (u "mp3") Scenario.w0).1
  = Raise (RuntimeError (u "yt-dlp download error (code 1):" ++ NL
                           ++ Fallback.NO_FORMATS_ERR)).
Proof. vm_compute. reflexivity. Qed.

(** C4 (amended).  When the command line of the download exits with a code
    other than 0: if the choice is not [mp3], the diagnostic output holds
    the signature of missing formats and the URL is an Instagram single post
    or a Pinterest URL, the outcome of the executor is the outcome of the
    gallery path run from there, the files of the secondary tool or the
    error that path raises; in every other case the executor raises the
    error that carries the code and the diagnostic output cut to its last
    1200 characters. *)
Theorem primary_failure_outcome
        (env : Env) (cfg : Config) (url : str) (out_dir : Path)
        (max_file_mb : Z) (mode_ : Mode) (quality_choice : str)
        (w w1 w2 : World) (job_id : str) (common : list str)
        (rc : Z) (out err : str) :
  download_setup env cfg url out_dir w = (Ok (job_id, common), w1) ->
  run_cmd env (primary_args common mode_ quality_choice max_file_mb
                 (outtmpl_of out_dir job_id) url) w1
  = (Ok (rc, out, err), w2) ->
  rc <> 0 ->
  let msg := diagnostic out err in
  run_yt_dlp_download env cfg url out_dir max_file_mb mode_ quality_choice w
  = (if negb (str_eqb quality_choice (u "mp3"))
        && contains NO_FORMATS msg
        && (is_instagram_post url || is_pinterest url)
     then run_gallery_dl_download env cfg url out_dir w2
     else (Raise (yt_dlp_error rc (tail_1200 msg)), w2))
  /\ tail_1200 msg `suffix_of` msg
  /\ (length (tail_1200 msg) <= 1200)%nat
  /\ ((1200 < length msg)%nat -> length (tail_1200 msg) = 1200%nat)
  /\ ((length msg <= 1200)%nat -> tail_1200 msg = msg).
Proof.
  intros Hsetup Hrun Hrc msg.
  split; [|auto using tail_1200_suffix, tail_1200_length, tail_1200_long,
                      tail_1200_short].
  unfold run_yt_dlp_download, primary_args in *.
  unfold bind at 1. rewrite Hsetup.
  assert (Hne : negb (rc =? 0) = true)
    by (destruct (Z.eqb_spec rc 0); [contradiction | reflexivity]).
  destruct (str_eqb quality_choice (u "mp3")); simpl negb; simpl andb.
  - unfold bind. rewrite Hrun, Hne. reflexivity.
  - unfold bind at 1. rewrite Hrun, Hne. fold msg.
    destruct (contains NO_FORMATS msg && _); reflexivity.
Qed.

Lemma primary_failure_outcome_witness :
  (run_yt_dlp_download Fallback.env_secondary_ok default_config Fallback.POST
     (u "/data") 1900 photo (u "best") Scenario.w0).1
  = Ok [Fallback.PHOTO].
Proof.
  pose (w1 := {| fs := (∅ : FS); trace := [EvUuid] |}).
  pose (common := yt_dlp_common_args default_config Fallback.POST None).
  pose (args := primary_args common photo (u "best") 1900
                  (outtmpl_of (u "/data") Scenario.JOB) Fallback.POST).
  pose (w2 := {| fs := (∅ : FS); trace := [EvUuid; EvCmd args] |}).
  destruct (primary_failure_outcome Fallback.env_secondary_ok default_config
              Fallback.POST (u "/data") 1900 photo (u "best")
              Scenario.w0 w1 w2 Scenario.JOB common 1 []
              Fallback.NO_FORMATS_ERR) as [Hrun _].
  - vm_compute. reflexivity.
  - vm_compute. reflexivity.
  - lia.
  - rewrite Hrun. vm_compute. reflexivity.
Defined.

(* ===================================================================== *)
(** * Cleanup after delivery *)
(* ===================================================================== *)

(** When every send succeeds the video is sent and then deleted. *)
Example sent_file_is_deleted :
  let b := run (handle_text Delivery.env_sent default_config Delivery.request)
               (init_bot ∅) in
  EvSendVideo 5 (ByUri (file_uri Scenario.VIDEO)) None ∈ trace (world b)
  /\ exists_ (fs (world b)) Scenario.VIDEO = false.
Proof.
  vm_compute. split; [|reflexivity].
  do 6 constructor. constructor.
Qed.

(** C1 fails on the code.  The transport refuses the video: the send
    raises, [process_download_and_send] is left before its cleanup loop,
    [handle_text] reports the failure and releases the lock, and the file is
    still there. *)
Theorem refused_file_is_left :
  let b := run (handle_text Delivery.env_refused default_config
                  Delivery.request)
               (init_bot ∅) in
  EvSendVideo 5 (ByUri (file_uri Scenario.VIDEO)) None ∈ trace (world b)
  /\ last (trace (world b))
     = Some (EvEditText 5 7 (txt_fail Delivery.too_large) None)
  /\ chat_locks b !! 5 = Some false
  /\ is_file (fs (world b)) Scenario.VIDEO = true.
Proof.
  vm_compute. repeat split.
  do 6 constructor. constructor.
Qed.

(** In gallery mode, with every send a success, the cleanup removes the
    directory that holds the photo, not the directory of the job, which is
    left behind with what else it holds. *)
Lemma gallery_job_directory_is_left :
  let b := run (handle_text Delivery.env_gallery default_config
                  Delivery.pin_request)
               (init_bot ∅) in
  last (trace (world b)) = Some (EvDeleteMessage 5 7)
  /\ exists_ (fs (world b)) Delivery.PIN_PHOTO = false
  /\ is_dir (fs (world b)) Delivery.GDL = true
  /\ is_dir (fs (world b)) (Delivery.GDL ++ u "/pinterest") = true.
Proof. vm_compute. repeat split. Qed.

(* ===================================================================== *)
(** * The handlers: quality choices and the chat lock *)
(* ===================================================================== *)

Section HandlerRuns.
Context (env : Env) (cfg : Config).
#[local] Open Scope monad_scope.

Lemma purge_expired_jobs_run (b : Bot) :
  purge_expired_jobs env b = (Ok tt, purged env b).
Proof. reflexivity. Qed.

Lemma answer_run (text : str) (alert : bool) (b : Bot) :
  answer env text alert b
  = (match transport_oracle env (trace (world b)) (EvAnswer text alert) with
     | Ok _ => Ok tt
     | Raise e => Raise e
     end, logged (EvAnswer text alert) b).
Proof.
  unfold answer, bind, lift, transport, ret. simpl.
  destruct (transport_oracle env (trace (world b)) (EvAnswer text alert));
    reflexivity.
Qed.

Lemma reply_run (message : Message) (text : str) (b : Bot) :
  (reply env message text b).2
  = logged (EvReply (msg_chat_id message) text) b.
Proof.
  unfold reply, bind, lift, transport, ret. simpl.
  destruct (transport_oracle env (trace (world b)) _); reflexivity.
Qed.

Lemma live_at_iff t k job : live_at t (k, job) <-> ~ expired_at t job.
Proof.
  unfold live_at, expired_at. simpl. rewrite <- Qle_bool_iff.
  destruct (Qle_bool (job_expires_at job) t); split; congruence.
Qed.

Lemma purged_lookup (b : Bot) (token : str) :
  pending_jobs (purged env b) !! token
  = match pending_jobs b !! token with
    | Some job =>
        if Qle_bool (job_expires_at job) (time_time env (trace (world b)))
        then None else Some job
    | None => None
    end.
Proof.
  unfold purged. simpl.
  destruct (pending_jobs b !! token) as [job|] eqn:E.
  - destruct (Qle_bool _ _) eqn:He.
    + apply map_lookup_filter_None. right. intros job' Hj.
      rewrite E in Hj. injection Hj as <-.
      unfold live_at. simpl. congruence.
    + apply map_lookup_filter_Some. split; [exact E | exact He].
  - apply map_lookup_filter_None. left. exact E.
Qed.

Lemma expired_at_iff t job :
  expired_at t job <-> Qle_bool (job_expires_at job) t = true.
Proof. unfold expired_at. symmetry. apply Qle_bool_iff. Qed.

(** The resolution of a token the purged registry does not hold. *)
Lemma resolve_unknown (call : CallbackQuery) (choice token : str) (b : Bot) :
  names call choice token ->
  pending_jobs (purged env b) !! token = None ->
  (on_quality_choice env cfg call b).2
  = logged (EvAnswer TXT_STALE true) (purged env b).
Proof.
  intros [q Hs] Hnone.
  unfold on_quality_choice, resolve_choice.
  unfold bind at 1. unfold bind at 1. rewrite purge_expired_jobs_run.
  rewrite Hs. unfold bind at 1. unfold get_pending at 1. simpl.
  unfold purged in Hnone. simpl in Hnone. rewrite Hnone.
  unfold bind at 1. rewrite answer_run.
  destruct (transport_oracle _ _ _); reflexivity.
Qed.

(** The resolution of a live token by a user who does not own it. *)
Lemma resolve_foreign (call : CallbackQuery) (choice token : str)
      (job : PendingJob) (b : Bot) :
  names call choice token ->
  pending_jobs (purged env b) !! token = Some job ->
  owns call job = false ->
  (on_quality_choice env cfg call b).2
  = logged (EvAnswer TXT_FOREIGN true) (purged env b).
Proof.
  intros [q Hs] Hjob Hown.
  unfold on_quality_choice, resolve_choice.
  unfold bind at 1. unfold bind at 1. rewrite purge_expired_jobs_run.
  rewrite Hs. unfold bind at 1. unfold get_pending at 1. simpl.
  unfold purged in Hjob. simpl in Hjob. rewrite Hjob, Hown. simpl.
  unfold bind at 1. rewrite answer_run.
  destruct (transport_oracle _ _ _); reflexivity.
Qed.

End HandlerRuns.

Example split_choice :
  split_max PIPE 2 (u "q|720p|0123456789ab") = [u "q"; u "720p"; u "0123456789ab"]
  /\ split_max PIPE 2 (u "q|best") = [u "q"; u "best"]
  /\ split_max PIPE 2 (u "q|mp3|a|b") = [u "q"; u "mp3"; u "a|b"].
Proof. vm_compute. repeat split. Qed.

Lemma stale_is_not_foreign : TXT_STALE <> TXT_FOREIGN.
Proof. vm_compute. discriminate. Qed.

(** C3.  A resolution whose token is unknown, or expired at the time of
    the resolution, or held by another user than the one who asks, is
    answered with the alert for a stale request or with the alert for a
    foreign menu, and does nothing else: one call to the transport, no
    command run, the file system and the locks as they were, the registry
    as it was but for the expired entries, which are purged.  A user who
    does not own the token is rejected whether it is expired (stale) or
    not (foreign). *)
Theorem stale_or_foreign_choice_is_rejected
        (env : Env) (cfg : Config) (call : CallbackQuery)
        (choice token : str) (b : Bot) :
  names call choice token ->
  let t := time_time env (trace (world b)) in
  (pending_jobs b !! token = None
   \/ exists job, pending_jobs b !! token = Some job
                  /\ (expired_at t job \/ owns call job = false)) ->
  let b' := (on_quality_choice env cfg call b).2 in
  exists text,
    (text = TXT_STALE \/ text = TXT_FOREIGN)
    /\ trace (world b') = trace (world b) ++ [EvAnswer text true]
    /\ fs (world b') = fs (world b)
    /\ chat_locks b' = chat_locks b
    /\ pending_jobs b' = filter (live_at t) (pending_jobs b)
    /\ (text = TXT_FOREIGN <->
        exists job, pending_jobs b !! token = Some job
                    /\ ~ expired_at t job /\ owns call job = false).
Proof.
  intros Hnames t Hcase b'.
  pose proof (purged_lookup env b token) as Hlook. fold t in Hlook.
  assert (Hstale : pending_jobs (purged env b) !! token = None ->
                   (forall job, pending_jobs b !! token = Some job ->
                                expired_at t job) ->
                   exists text,
                     (text = TXT_STALE \/ text = TXT_FOREIGN)
                     /\ trace (world b') = trace (world b) ++ [EvAnswer text true]
                     /\ fs (world b') = fs (world b)
                     /\ chat_locks b' = chat_locks b
                     /\ pending_jobs b' = filter (live_at t) (pending_jobs b)
                     /\ (text = TXT_FOREIGN <->
                         exists job, pending_jobs b !! token = Some job
                                     /\ ~ expired_at t job
                                     /\ owns call job = false)).
  { intros Hnone Hexp. exists TXT_STALE. subst b'.
    rewrite (resolve_unknown env cfg call choice token b Hnames Hnone).
    split; [left; reflexivity|].
    do 4 (split; [reflexivity|]).
    split.
    - intros H. exfalso. exact (stale_is_not_foreign H).
    - intros (job & Hj & Hne & _). exfalso. apply Hne, Hexp, Hj. }
  destruct Hcase as [Hnone | (job & Hjob & Hwhy)].
  - apply Hstale.
    + rewrite Hlook, Hnone. reflexivity.
    + intros job Hj. congruence.
  - rewrite Hjob in Hlook.
    destruct (Qle_bool (job_expires_at job) t) eqn:He.
    + apply Hstale; [exact Hlook|].
      intros job' Hj. rewrite Hjob in Hj. injection Hj as <-.
      apply expired_at_iff. exact He.
    + assert (Hlive : ~ expired_at t job)
        by (rewrite expired_at_iff; congruence).
      destruct Hwhy as [Hexp | Hown]; [contradiction|].
      exists TXT_FOREIGN. subst b'.
      rewrite (resolve_foreign env cfg call choice token job b Hnames Hlook
                 Hown).
      split; [right; reflexivity|].
      do 4 (split; [reflexivity|]).
      split; [|reflexivity].
      intros _. exists job. repeat split; assumption.
Qed.

Example foreign_user_rejected :
  let b := run (on_quality_choice (Menu.env_at 100) default_config
                  (Menu.press 43))
               (Menu.bot_with_menu false) in
  trace (world b) = [EvAnswer TXT_FOREIGN true]
  /\ pending_jobs b !! Menu.TOKEN = Some Menu.job.
Proof. vm_compute. split; reflexivity. Qed.

Example expired_token_rejected :
  let b := run (on_quality_choice (Menu.env_at 700) default_config
                  (Menu.press 42))
               (Menu.bot_with_menu false) in
  trace (world b) = [EvAnswer TXT_STALE true]
  /\ pending_jobs b !! Menu.TOKEN = None.
Proof. vm_compute. split; reflexivity. Qed.

Example owner_in_time_downloads :
  let b := run (on_quality_choice (Menu.env_at 100) default_config
                  (Menu.press 42))
               (Menu.bot_with_menu false) in
  EvSendVideo 5 (ByUri (file_uri Scenario.VIDEO)) (Some (u "clip"))
    ∈ trace (world b)
  /\ pending_jobs b !! Menu.TOKEN = None
  /\ chat_locks b !! 5 = Some false.
Proof.
  vm_compute. repeat split.
  do 5 constructor. constructor.
Qed.

Lemma stale_or_foreign_choice_is_rejected_witness :
  exists text,
    (text = TXT_STALE \/ text = TXT_FOREIGN)
    /\ trace (world (on_quality_choice (Menu.env_at 700) default_config
                       (Menu.press 43) (Menu.bot_with_menu false)).2)
       = [EvAnswer text true].
Proof.
  destruct (stale_or_foreign_choice_is_rejected
              (Menu.env_at 700) default_config (Menu.press 43)
              (u "720p") Menu.TOKEN (Menu.bot_with_menu false))
    as (text & Htext & Htrace & _).
  - exists (u "q"). vm_compute. reflexivity.
  - right. exists Menu.job. split; [vm_compute; reflexivity|].
    right. vm_compute. reflexivity.
  - exists text. split; [exact Htext | exact Htrace].
Defined.

Section BusyLock.
Context (env : Env) (cfg : Config).
#[local] Open Scope monad_scope.

Lemma get_lock_held (chat : Z) (b : Bot) :
  lock_held chat b ->
  get_lock chat b
  = (Ok tt, {| world := world b; pending_jobs := pending_jobs b;
               chat_locks := chat_locks b |}).
Proof.
  unfold lock_held, get_lock, modify_locks. intros ->. reflexivity.
Qed.

(** The guard, when the lock is held: the busy branch and nothing else. *)
Lemma guard_held (chat : Z) (busy body : M Bot unit) (b : Bot) :
  lock_held chat b ->
  guard_chat chat busy body b
  = busy {| world := world b; pending_jobs := pending_jobs b;
            chat_locks := chat_locks b |}.
Proof.
  intros Hheld. unfold guard_chat. unfold bind at 1.
  rewrite (get_lock_held chat b Hheld).
  unfold bind, locked. simpl. unfold lock_held in Hheld. rewrite Hheld.
  reflexivity.
Qed.

(** The resolution of a live token by its owner, for a choice other than
    [cancel], while the lock of the chat is held. *)
Lemma resolve_busy (call : CallbackQuery) (choice token : str)
      (job : PendingJob) (b : Bot) :
  names call choice token ->
  pending_jobs (purged env b) !! token = Some job ->
  owns call job = true ->
  str_eqb choice (u "cancel") = false ->
  lock_held (job_chat_id job) b ->
  on_quality_choice env cfg call b
  = match transport_oracle env (trace (world b))
            (EvAnswer TXT_IN_PROGRESS false) with
    | Ok _ =>
        (match transport_oracle env
                 (trace (world b) ++ [EvAnswer TXT_IN_PROGRESS false])
                 (EvAnswer TXT_BUSY true) with
         | Ok _ => Ok tt
         | Raise e => Raise e
         end,
         logged (EvAnswer TXT_BUSY true)
           (logged (EvAnswer TXT_IN_PROGRESS false)
              (popped token (purged env b))))
    | Raise e =>
        (Raise e,
         logged (EvAnswer TXT_IN_PROGRESS false)
           (popped token (purged env b)))
    end.
Proof.
  intros [q Hs] Hjob Hown Hcancel Hheld.
  unfold on_quality_choice, resolve_choice.
  unfold bind at 1. unfold bind at 1. rewrite purge_expired_jobs_run.
  rewrite Hs. unfold bind at 1. unfold get_pending at 1. simpl.
  unfold purged in Hjob. simpl in Hjob. rewrite Hjob, Hown, Hcancel. simpl.
  unfold bind at 1. unfold modify_pending at 1. simpl.
  unfold bind at 1. rewrite answer_run. simpl.
  destruct (transport_oracle env (trace (world b))
              (EvAnswer TXT_IN_PROGRESS false)) as [z|e]; [|reflexivity].
  unfold ret at 1. rewrite guard_held by exact Hheld.
  rewrite answer_run. reflexivity.
Qed.

End BusyLock.

Example busy_choice_loses_token :
  let b := run (on_quality_choice (Menu.env_at 100) default_config
                  (Menu.press 42))
               (Menu.bot_with_menu true) in
  trace (world b) = [EvAnswer TXT_IN_PROGRESS false; EvAnswer TXT_BUSY true]
  /\ pending_jobs b !! Menu.TOKEN = None
  /\ chat_locks b !! 5 = Some true.
Proof. vm_compute. repeat split. Qed.

(** C10.  A live token resolved by its owner with a choice other than
    [cancel], while the lock of the chat is held: the token is removed from
    the registry, the first answer is sent, and only then the lock is looked
    at; the request is answered as busy, nothing is downloaded, the lock
    stays held, and the token is gone, also when the first answer raises.
    Any later resolution of the same token, by anyone and for any choice,
    is answered as stale. *)
Theorem busy_choice_destroys_token
        (env : Env) (cfg : Config) (call : CallbackQuery)
        (choice token : str) (job : PendingJob) (b : Bot) :
  names call choice token ->
  pending_jobs b !! token = Some job ->
  ~ expired_at (time_time env (trace (world b))) job ->
  owns call job = true ->
  choice <> u "cancel" ->
  lock_held (job_chat_id job) b ->
  let r := on_quality_choice env cfg call b in
  pending_jobs r.2 !! token = None
  /\ (exists evs,
        trace (world r.2)
        = trace (world b) ++ EvAnswer TXT_IN_PROGRESS false :: evs
        /\ match transport_oracle env (trace (world b))
                   (EvAnswer TXT_IN_PROGRESS false) with
           | Ok _ => evs = [EvAnswer TXT_BUSY true]
           | Raise e => evs = [] /\ r.1 = Raise e
           end)
  /\ fs (world r.2) = fs (world b)
  /\ lock_held (job_chat_id job) r.2
  /\ (forall call2 choice2,
        names call2 choice2 token ->
        let r2 := on_quality_choice env cfg call2 r.2 in
        trace (world r2.2) = trace (world r.2) ++ [EvAnswer TXT_STALE true]
        /\ pending_jobs r2.2 !! token = None
        /\ fs (world r2.2) = fs (world r.2)).
Proof.
  intros Hnames Hjob Hlive Hown Hchoice Hheld r.
  assert (Hp : pending_jobs (purged env b) !! token = Some job).
  { rewrite purged_lookup, Hjob.
    destruct (Qle_bool _ _) eqn:He; [|reflexivity].
    exfalso. apply Hlive, expired_at_iff, He. }
  assert (Hc : str_eqb choice (u "cancel") = false)
    by (apply str_eqb_false; exact Hchoice).
  pose proof (resolve_busy env cfg call choice token job b Hnames Hp Hown Hc
                Hheld) as Hrun.
  fold r in Hrun.
  assert (Hgone : pending_jobs r.2 !! token = None).
  { rewrite Hrun. destruct (transport_oracle _ _ _); simpl;
      apply lookup_delete_eq. }
  split; [exact Hgone|]. split; [|split; [|split]].
  - rewrite Hrun.
    destruct (transport_oracle env (trace (world b))
                (EvAnswer TXT_IN_PROGRESS false)) as [z|e]; simpl.
    + exists [EvAnswer TXT_BUSY true]. rewrite <- app_assoc. auto.
    + exists []. auto.
  - rewrite Hrun. destruct (transport_oracle _ _ _); reflexivity.
  - unfold lock_held in *. rewrite Hrun.
    destruct (transport_oracle _ _ _); exact Hheld.
  - intros call2 choice2 Hnames2 r2. subst r2.
    assert (Hnone : pending_jobs (purged env r.2) !! token = None)
      by (rewrite purged_lookup, Hgone; reflexivity).
    rewrite (resolve_unknown env cfg call2 choice2 token r.2 Hnames2 Hnone).
    repeat split. exact Hnone.
Qed.

Lemma busy_choice_destroys_token_witness :
  pending_jobs (on_quality_choice (Menu.env_at 100) default_config
                  (Menu.press 42) (Menu.bot_with_menu true)).2
    !! Menu.TOKEN = None.
Proof.
  apply (busy_choice_destroys_token (Menu.env_at 100) default_config
           (Menu.press 42) (u "720p") Menu.TOKEN Menu.job
           (Menu.bot_with_menu true)).
  - exists (u "q"). vm_compute. reflexivity.
  - vm_compute. reflexivity.
  - unfold expired_at, Qle. simpl. lia.
  - vm_compute. reflexivity.
  - vm_compute. discriminate.
  - vm_compute. reflexivity.
Defined.

(* ===================================================================== *)
(** * One pipeline per chat *)
(* ===================================================================== *)

Section Frame.
Context (env : Env) (cfg : Config).
#[local] Open Scope monad_scope.

Lemma keeps_ret {A} (a : A) : keeps_locks (ret a).
Proof. intros b. reflexivity. Qed.

Lemma keeps_raise {A} e : keeps_locks (@raise Bot A e).
Proof. intros b. reflexivity. Qed.

Lemma keeps_bind {A B} (m : M Bot A) (k : A -> M Bot B) :
  keeps_locks m -> (forall a, keeps_locks (k a)) -> keeps_locks (bind m k).
Proof.
  intros Hm Hk b. unfold bind. specialize (Hm b).
  destruct (m b) as [[a|e] b1]; simpl in *; [|exact Hm].
  rewrite Hk. exact Hm.
Qed.

Lemma keeps_try_except {A} (m : M Bot A) (h : Exn -> M Bot A) :
  keeps_locks m -> (forall e, keeps_locks (h e)) ->
  keeps_locks (try_except m h).
Proof.
  intros Hm Hh b. unfold try_except. specialize (Hm b).
  destruct (m b) as [[a|e] b1]; simpl in *; [exact Hm|].
  rewrite Hh. exact Hm.
Qed.

Lemma keeps_lift {A} (m : M World A) : keeps_locks (lift m).
Proof. intros b. unfold lift. destruct (m (world b)). reflexivity. Qed.

Lemma keeps_modify_pending f : keeps_locks (modify_pending f).
Proof. intros b. reflexivity. Qed.

Lemma keeps_get_pending : keeps_locks get_pending.
Proof. intros b. reflexivity. Qed.

Lemma keeps_answer text alert : keeps_locks (answer env text alert).
Proof. intros b. rewrite answer_run. reflexivity. Qed.

Lemma keeps_reply message text : keeps_locks (reply env message text).
Proof. intros b. rewrite reply_run. reflexivity. Qed.

Create HintDb keeps.
Hint Resolve keeps_ret keeps_raise keeps_lift keeps_modify_pending
     keeps_get_pending keeps_answer keeps_reply : keeps.

Ltac keeps :=
  repeat first
    [ progress auto with keeps
    | apply keeps_bind; [|intros ?]
    | apply keeps_try_except; [|intros ?]
    | match goal with
      | |- keeps_locks (if ?c then _ else _) => destruct c
      | |- keeps_locks (match ?c with _ => _ end) => destruct c
      end ].

Lemma keeps_report_failure status e :
  keeps_locks (report_failure env status e).
Proof. unfold report_failure. keeps. Qed.

Lemma keeps_handle_text_body message url :
  keeps_locks (handle_text_body env cfg message url).
Proof.
  unfold handle_text_body. keeps. apply keeps_report_failure.
Qed.

Lemma keeps_quality_body call job choice :
  keeps_locks (quality_body env cfg call job choice).
Proof.
  unfold quality_body, report_failure_quietly. keeps.
  apply keeps_report_failure.
Qed.

Lemma keeps_resolve_choice call : keeps_locks (resolve_choice env call).
Proof.
  unfold resolve_choice, purge_expired_jobs. keeps.
Qed.

(** Leaving [async with lock] frees the lock, however the body ends. *)
Lemma leave_releases {A} (chat : Z) (body : M Bot A) (b : Bot) :
  keeps_locks body ->
  chat_locks (run (try_finally body (release chat)) b)
  = <[chat := false]> (chat_locks b).
Proof.
  intros Hk. unfold run, try_finally. specialize (Hk b).
  destruct (body b) as [r b1]. simpl in *. rewrite Hk. reflexivity.
Qed.

(** Entering [async with lock] takes the lock. *)
Lemma enter_acquires (chat : Z) (b : Bot) (d : Z) :
  lock_held d (run (bind (get_lock chat) (fun _ => acquire chat)) b)
  <-> d = chat \/ lock_held d b.
Proof.
  unfold run, lock_held, bind, get_lock, acquire, modify_locks. simpl.
  destruct (decide (d = chat)) as [->|Hne].
  - rewrite lookup_insert_eq. tauto.
  - rewrite lookup_insert_ne by congruence.
    destruct (chat_locks b !! chat);
      [|rewrite lookup_insert_ne by congruence]; tauto.
Qed.

Lemma released_held (chat d : Z) (l : gmap Z bool) :
  <[chat := false]> l !! d = Some true <-> d <> chat /\ l !! d = Some true.
Proof.
  destruct (decide (d = chat)) as [->|Hne].
  - rewrite lookup_insert_eq. split; [discriminate | tauto].
  - rewrite lookup_insert_ne by congruence. tauto.
Qed.

(** A text that arrives while the lock of its chat is held: the reply that
    a download is still going on, and nothing else. *)
Lemma handle_text_held (message : Message) (url : str) (b : Bot) :
  URL_RE_search env (strip (msg_text message)) = Some url ->
  lock_held (msg_chat_id message) b ->
  (handle_text env cfg message b).2
  = logged (EvReply (msg_chat_id message) TXT_BUSY) b.
Proof.
  intros Hurl Hheld. unfold handle_text. rewrite Hurl.
  rewrite guard_held by exact Hheld.
  unfold bind. rewrite (surjective_pairing (reply env message TXT_BUSY _)).
  rewrite reply_run.
  destruct (reply env message TXT_BUSY _).1; reflexivity.
Qed.

Lemma guard_busy_held (chat : Z) (body : M Bot unit) (b : Bot) :
  lock_held chat b ->
  (guard_chat chat (answer env TXT_BUSY true) body b).2
  = logged (EvAnswer TXT_BUSY true) b.
Proof.
  intros Hheld. rewrite guard_held by exact Hheld.
  rewrite answer_run. reflexivity.
Qed.

End Frame.

(** The guard, when the lock is free: the lock is taken, the body runs, the
    lock is freed.  A handler run in one go is thus the step that enters
    [async with] followed by the step that leaves it. *)
Lemma guard_free (env : Env) (chat : Z) (busy body : M Bot unit) (b : Bot) :
  ~ lock_held chat b ->
  guard_chat chat busy body b
  = try_finally body (release chat)
      (run (bind (get_lock chat) (fun _ => acquire chat)) b).
Proof.
  intros Hfree. unfold lock_held in Hfree.
  unfold guard_chat, async_with_lock, run, bind, get_lock, locked, acquire,
    modify_locks. simpl.
  destruct (chat_locks b !! chat) as [[|]|] eqn:E; simpl.
  - congruence.
  - rewrite E. reflexivity.
  - rewrite lookup_insert_eq. reflexivity.
Qed.

Lemma handle_text_free (env : Env) (cfg : Config) (message : Message)
      (url : str) (b : Bot) :
  URL_RE_search env (strip (msg_text message)) = Some url ->
  ~ lock_held (msg_chat_id message) b ->
  handle_text env cfg message b
  = try_finally (handle_text_body env cfg message url)
                (release (msg_chat_id message))
      (run (bind (get_lock (msg_chat_id message))
                 (fun _ => acquire (msg_chat_id message))) b).
Proof.
  intros Hurl Hfree. unfold handle_text. rewrite Hurl.
  apply guard_free; assumption.
Qed.

Section Coroutines.
Context (env : Env) (cfg : Config).
#[local] Open Scope monad_scope.

(** The guard as a coroutine, when the lock is held: it ends at once, as
    the guard run in one go does. *)
Lemma co_guard_held (chat : Z) (busy : M Bot unit) (body : Co unit)
      (body' : M Bot unit) (b : Bot) :
  lock_held chat b ->
  Async.guard_chat chat busy body b
  = (Fin (guard_chat chat busy body' b).1, (guard_chat chat busy body' b).2).
Proof.
  intros Hheld. rewrite (guard_held chat busy body' b Hheld).
  unfold Async.guard_chat, co_bind, atomic.
  rewrite (get_lock_held chat b Hheld). cbn [bind_coro].
  unfold locked. cbn [chat_locks]. unfold lock_held in Hheld. rewrite Hheld.
  cbn [bind_coro]. destruct (busy _) as [r b']. reflexivity.
Qed.

(** The guard as a coroutine, when the lock is free: the lock is taken and
    the coroutine is suspended inside the pipeline; resumed, it runs the
    body and frees the lock. *)
Lemma co_guard_free (chat : Z) (busy body : M Bot unit) (b : Bot) :
  ~ lock_held chat b ->
  exists k,
    Async.guard_chat chat busy (Async.pipeline chat body) b
    = (Susp (Some chat) k,
       run (bind (get_lock chat) (fun _ => acquire chat)) b)
    /\ forall b2,
         k b2 = (Fin (try_finally body (release chat) b2).1,
                 (try_finally body (release chat) b2).2).
Proof.
  intros Hfree. unfold lock_held in Hfree.
  assert (Hk : forall b2,
             (let '(c', b3) :=
                (let '(c'', b4) := (Fin (Ok tt), b2) in
                 bind_coro c'' (fun _ => atomic body) b4) in
              finally_coro c' (release chat) b3)
             = (Fin (try_finally body (release chat) b2).1,
                (try_finally body (release chat) b2).2)).
  { intros b2. cbn [bind_coro]. unfold atomic, try_finally.
    destruct (body b2) as [r b3]. cbn [finally_coro].
    unfold release, modify_locks. reflexivity. }
  eexists. split; [|exact Hk].
  unfold Async.guard_chat, Async.async_with_lock, Async.pipeline, co_bind,
    co_try_finally, atomic, suspend, run, bind, get_lock, locked, acquire,
    modify_locks.
  cbn [bind_coro chat_locks fst snd].
  destruct (chat_locks b !! chat) as [[|]|] eqn:E.
  - congruence.
  - cbn [bind_coro chat_locks]. rewrite E. reflexivity.
  - cbn [bind_coro chat_locks].
    rewrite (lookup_insert_eq (chat_locks b) chat false). reflexivity.
Qed.

Lemma pipeline_task (chat : Z) (body : M Bot unit)
      (k : Bot -> Coro unit * Bot) :
  keeps_locks body ->
  (forall b2, k b2 = (Fin (try_finally body (release chat) b2).1,
                      (try_finally body (release chat) b2).2)) ->
  in_pipeline chat (Susp (Some chat) k).
Proof.
  intros Hbody Hk. exists k. split; [reflexivity|]. intros b.
  rewrite Hk. split; [eexists; reflexivity|].
  apply (leave_releases chat body b Hbody).
Qed.

(** What the guard does to the locks and to the suspended handlers. *)
Lemma co_guard_spec (chat : Z) (busy body : M Bot unit) (b : Bot) :
  keeps_locks busy -> keeps_locks body ->
  let r := Async.guard_chat chat busy (Async.pipeline chat body) b in
  (lock_held chat b
   /\ (exists x, r.1 = Fin x) /\ chat_locks r.2 = chat_locks b)
  \/ (~ lock_held chat b
      /\ in_pipeline chat r.1
      /\ forall d, lock_held d r.2 <-> d = chat \/ lock_held d b).
Proof.
  intros Hbusy Hbody r. subst r.
  destruct (decide (chat_locks b !! chat = Some true)) as [Hheld|Hfree].
  - left. split; [exact Hheld|].
    rewrite (co_guard_held chat busy _ body b Hheld).
    split; [eexists; reflexivity|].
    cbn [snd]. rewrite (guard_held chat busy body b Hheld).
    exact (Hbusy _).
  - right. split; [exact Hfree|].
    destruct (co_guard_free chat busy body b Hfree) as (k & -> & Hk).
    split; [exact (pipeline_task chat body k Hbody Hk)|].
    intros d. apply enter_acquires.
Qed.

Lemma keeps_busy_reply (message : Message) :
  keeps_locks (reply env message TXT_BUSY ;; ret tt).
Proof.
  apply keeps_bind; [apply keeps_reply | intros ?; apply keeps_ret].
Qed.

Lemma co_handle_text_spec (message : Message) (b : Bot) :
  let chat := msg_chat_id message in
  let r := Async.handle_text env cfg message b in
  ((exists x, r.1 = Fin x) /\ chat_locks r.2 = chat_locks b)
  \/ (~ lock_held chat b
      /\ in_pipeline chat r.1
      /\ forall d, lock_held d r.2 <-> d = chat \/ lock_held d b).
Proof.
  intros chat r. subst r. unfold Async.handle_text.
  destruct (URL_RE_search env (strip (msg_text message))) as [url|].
  - destruct (co_guard_spec chat (reply env message TXT_BUSY ;; ret tt)
                (handle_text_body env cfg message url) b
                (keeps_busy_reply message)
                (keeps_handle_text_body env cfg message url))
      as [(_ & H)|H]; [left | right]; exact H.
  - left. split; [eexists; reflexivity | reflexivity].
Qed.

Lemma co_on_quality_choice_spec (call : CallbackQuery) (b : Bot) :
  let r := Async.on_quality_choice env cfg call b in
  chat_locks r.2 = chat_locks b
  /\ ((exists x, r.1 = Fin x) \/ exists chat, at_lock chat r.1).
Proof.
  intros r. subst r. unfold Async.on_quality_choice, co_bind, atomic.
  pose proof (keeps_resolve_choice env call b) as Hlocks.
  destruct (resolve_choice env call b) as [[[[job choice]|]|e] b1];
    cbn [snd] in Hlocks; cbn [bind_coro].
  - unfold suspend. cbn [bind_coro fst snd].
    split; [exact Hlocks|]. right. exists (job_chat_id job).
    eexists. split; [reflexivity|]. intros b2. cbv beta iota.
    cbn [bind_coro].
    destruct (co_guard_spec (job_chat_id job) (answer env TXT_BUSY true)
                (quality_body env cfg call job choice) b2
                (keeps_answer env TXT_BUSY true)
                (keeps_quality_body env cfg call job choice))
      as [(Hheld & Hfin & Hl)|(Hfree & Hin & Hl)].
    + split; [intros _; split; assumption | intros Hn; contradiction].
    + split; [intros Hn; contradiction | intros _; split; assumption].
  - split; [exact Hlocks|]. left. eexists. reflexivity.
  - split; [exact Hlocks|]. left. eexists. reflexivity.
Qed.

(** A handler run with no other handler in between is the handler run in
    one go. *)
Lemma alone_guard (chat : Z) (busy body : M Bot unit) (b : Bot) :
  alone (Async.guard_chat chat busy (Async.pipeline chat body)) b
  = guard_chat chat busy body b.
Proof using env.
  unfold alone.
  destruct (decide (chat_locks b !! chat = Some true)) as [Hheld|Hfree].
  - rewrite (co_guard_held chat busy _ body b Hheld). cbn [complete].
    destruct (guard_chat chat busy body b). reflexivity.
  - destruct (co_guard_free chat busy body b Hfree) as (k & -> & Hk).
    cbn [complete]. rewrite Hk. cbn [complete].
    rewrite (guard_free env chat busy body b Hfree).
    destruct (try_finally body (release chat) _). reflexivity.
Qed.

Lemma alone_handle_text (message : Message) (b : Bot) :
  alone (Async.handle_text env cfg message) b = handle_text env cfg message b.
Proof.
  unfold Async.handle_text, handle_text.
  destruct (URL_RE_search env (strip (msg_text message))) as [url|];
    [apply alone_guard | reflexivity].
Qed.

Lemma alone_on_quality_choice (call : CallbackQuery) (b : Bot) :
  alone (Async.on_quality_choice env cfg call) b
  = on_quality_choice env cfg call b.
Proof.
  unfold alone, Async.on_quality_choice, on_quality_choice, co_bind, atomic,
    bind.
  destruct (resolve_choice env call b) as [[[[job choice]|]|e] b1];
    cbn [bind_coro]; [|reflexivity..].
  unfold suspend. cbn [bind_coro complete].
  apply (alone_guard (job_chat_id job) (answer env TXT_BUSY true)
           (quality_body env cfg call job choice) b1).
Qed.

(** A text that arrives while the lock of its chat is held: the coroutine
    ends at once. *)
Lemma co_handle_text_held (message : Message) (url : str) (b : Bot) :
  URL_RE_search env (strip (msg_text message)) = Some url ->
  lock_held (msg_chat_id message) b ->
  Async.handle_text env cfg message b
  = (Fin (handle_text env cfg message b).1, (handle_text env cfg message b).2).
Proof.
  intros Hurl Hheld. unfold Async.handle_text, handle_text. rewrite Hurl.
  apply co_guard_held, Hheld.
Qed.

End Coroutines.

Section Invariant.
Context (env : Env) (cfg : Config).

Lemma in_flight_count chat s : in_flight chat s = count_chat chat (tasks s).
Proof. reflexivity. Qed.

Lemma count_chat_app chat ts1 ts2 :
  count_chat chat (ts1 ++ ts2)
  = (count_chat chat ts1 + count_chat chat ts2)%nat.
Proof. unfold count_chat. rewrite filter_app, length_app. reflexivity. Qed.

Lemma count_chat_cons chat t ts :
  count_chat chat (t :: ts)
  = ((if decide (task_chat t = Some chat) then 1 else 0)
     + count_chat chat ts)%nat.
Proof.
  unfold count_chat. rewrite filter_cons.
  destruct (decide (task_chat t = Some chat)); reflexivity.
Qed.

Lemma count_chat_inside chat c k ts :
  count_chat chat (Susp (Some c) k :: ts)
  = ((if decide (chat = c) then 1 else 0) + count_chat chat ts)%nat.
Proof.
  rewrite count_chat_cons. cbn [task_chat].
  destruct (decide (Some c = Some chat)), (decide (chat = c));
    congruence.
Qed.

Lemma count_chat_outside chat k ts :
  count_chat chat (Susp None k :: ts) = count_chat chat ts.
Proof.
  rewrite count_chat_cons. cbn [task_chat].
  destruct (decide (None = Some chat)); [discriminate | reflexivity].
Qed.

Lemma invariant_same b b' ts ts' :
  chat_locks b' = chat_locks b ->
  (forall d, count_chat d ts' = count_chat d ts) ->
  lock_invariant {| bot := b; tasks := ts |} ->
  lock_invariant {| bot := b'; tasks := ts' |}.
Proof.
  intros Hl Hc Hinv d. specialize (Hinv d).
  unfold lock_held, in_flight in *. simpl in *.
  fold (count_chat d ts) in Hinv. fold (count_chat d ts').
  rewrite Hl, Hc. exact Hinv.
Qed.

Lemma invariant_enter b b' ts ts' c :
  ~ lock_held c b ->
  (forall d, lock_held d b' <-> d = c \/ lock_held d b) ->
  (forall d, count_chat d ts'
             = ((if decide (d = c) then 1 else 0) + count_chat d ts)%nat) ->
  lock_invariant {| bot := b; tasks := ts |} ->
  lock_invariant {| bot := b'; tasks := ts' |}.
Proof.
  intros Hfree Hl Hc Hinv d. specialize (Hinv d).
  unfold in_flight in *. simpl in *.
  fold (count_chat d ts) in Hinv. fold (count_chat d ts').
  rewrite Hl, Hc. destruct (decide (d = c)) as [->|Hne]; [|tauto].
  destruct Hinv as [Hle Hiff].
  assert (count_chat c ts = 0%nat) by (destruct (count_chat c ts) as [|[|n]];
                                        [reflexivity | tauto | lia]).
  split; [lia|]. split; [lia | tauto].
Qed.

Lemma invariant_exit b b' ts ts' c :
  (forall d, lock_held d b' <-> d <> c /\ lock_held d b) ->
  (forall d, count_chat d ts
             = ((if decide (d = c) then 1 else 0) + count_chat d ts')%nat) ->
  lock_invariant {| bot := b; tasks := ts |} ->
  lock_invariant {| bot := b'; tasks := ts' |}.
Proof.
  intros Hl Hc Hinv d. specialize (Hinv d).
  unfold in_flight in *. simpl in *.
  fold (count_chat d ts) in Hinv. fold (count_chat d ts').
  rewrite Hl. rewrite Hc in Hinv.
  destruct (decide (d = c)) as [->|Hne]; [|tauto].
  destruct Hinv as [Hle Hiff]. split; [lia|]. split; [tauto | lia].
Qed.

(** A handler that starts and ends at once, or is suspended inside its
    pipeline, keeps the invariant. *)
Lemma arrival_keeps_invariant (b b' : Bot) (c : Coro unit) (ts : list Task)
      (chat : Z) :
  ((exists x, c = Fin x) /\ chat_locks b' = chat_locks b)
  \/ (~ lock_held chat b
      /\ in_pipeline chat c
      /\ forall d, lock_held d b' <-> d = chat \/ lock_held d b) ->
  sys_invariant {| bot := b; tasks := ts |} ->
  sys_invariant {| bot := b'; tasks := park c ts |}.
Proof.
  intros [[[x ->] Hl]|(Hfree & Hin & Hl)] [Hknown Hinv]; cbn [tasks] in *.
  - split; [exact Hknown|].
    eapply invariant_same; [exact Hl | reflexivity | exact Hinv].
  - pose proof Hin as (k & -> & _). cbn [park]. split.
    + apply Forall_cons. split; [|exact Hknown]. exists chat. left. exact Hin.
    + eapply invariant_enter; [exact Hfree | exact Hl | | exact Hinv].
      intros d. apply count_chat_inside.
Qed.

Lemma step_keeps_invariant (s s' : Sys) :
  step env cfg s s' -> sys_invariant s -> sys_invariant s'.
Proof.
  intros Hstep Hinv. destruct Hstep.
  - (* a text arrives *)
    apply arrival_keeps_invariant with (b := b) (chat := msg_chat_id message);
      [|exact Hinv].
    apply co_handle_text_spec.
  - (* a callback arrives *)
    destruct (co_on_quality_choice_spec env cfg call b) as [Hl [[x E]|[c Hat]]].
    + apply arrival_keeps_invariant with (b := b) (chat := 0);
        [|exact Hinv].
      left. split; [exists x; exact E | exact Hl].
    + destruct Hinv as [Hknown Hinv]. cbn [tasks] in *.
      pose proof Hat as (k & E & _). rewrite E. cbn [park]. split.
      * apply Forall_cons. split; [|exact Hknown]. exists c. right.
        rewrite <- E. exact Hat.
      * eapply invariant_same; [exact Hl | | exact Hinv].
        intros d. apply count_chat_outside.
  - (* a suspended handler is resumed *)
    destruct Hinv as [Hknown Hinv]. cbn [tasks] in *.
    apply Forall_app in Hknown as [Hk1 Hk2].
    apply Forall_cons in Hk2 as [[c [Hin|Hat]] Hk2].
    + (* it was inside its pipeline *)
      destruct Hin as (k0 & [= -> <-] & Hres).
      destruct (Hres b) as [[r Hfin] Hl]. rewrite Hfin. cbn [park]. split.
      * apply Forall_app. split; assumption.
      * eapply invariant_exit with (c := c); [| |exact Hinv].
        -- intros d. unfold lock_held. rewrite Hl. apply released_held.
        -- intros d. rewrite !count_chat_app, count_chat_inside. lia.
    + (* it was about to fetch the lock *)
      destruct Hat as (k0 & [= -> <-] & Hres).
      destruct (Hres b) as [Hheld Hfree].
      destruct (decide (chat_locks b !! c = Some true)) as [Hh|Hf].
      * destruct (Hheld Hh) as [[r Hfin] Hl]. rewrite Hfin. cbn [park].
        split; [apply Forall_app; split; assumption|].
        eapply invariant_same; [exact Hl | | exact Hinv].
        intros d. rewrite !count_chat_app, count_chat_outside. reflexivity.
      * destruct (Hfree Hf) as [Hin Hl].
        pose proof Hin as (k1 & E & _). rewrite E. cbn [park]. split.
        -- apply Forall_app. split; [exact Hk1|].
           apply Forall_cons. split; [|exact Hk2]. exists c. left.
           rewrite <- E. exact Hin.
        -- eapply invariant_enter with (c := c);
             [exact Hf | exact Hl | | exact Hinv].
           intros d.
           rewrite !count_chat_app, count_chat_inside, count_chat_outside.
           lia.
Qed.

Lemma init_invariant (f : FS) :
  sys_invariant {| bot := init_bot f; tasks := [] |}.
Proof.
  split; [constructor|].
  intros chat. unfold in_flight, lock_held. simpl.
  rewrite lookup_empty. split; [lia|]. split; [discriminate | lia].
Qed.

Lemma reachable_invariant (s : Sys) :
  reachable env cfg s -> sys_invariant s.
Proof.
  intros [f Hrtc]. pose proof (init_invariant f) as Hinit.
  induction Hrtc as [s|s1 s2 s3 Hstep _ IH]; [exact Hinit|].
  apply IH. eapply step_keeps_invariant; eassumption.
Qed.

End Invariant.

Example second_text_is_turned_away :
  let b1 := run (bind (get_lock 5) (fun _ => acquire 5)) (init_bot ∅) in
  let r := handle_text Delivery.env_sent default_config Delivery.request b1 in
  r.1 = Ok tt
  /\ trace (world r.2) = [EvReply 5 TXT_BUSY]
  /\ pending_jobs r.2 = ∅
  /\ chat_locks r.2 !! 5 = Some true.
Proof. vm_compute. repeat split. Qed.

(** Two texts for the same chat, the second arriving while the first is
    suspended inside its pipeline: the first takes the lock, the second is
    turned away, and resuming the first frees the lock. *)
Example two_texts_one_pipeline :
  let h := Async.handle_text Delivery.env_sent default_config
             Delivery.request in
  let r1 := h (init_bot ∅) in
  let r2 := h r1.2 in
  let r3 := match r1.1 with
            | Susp _ k => k r2.2
            | Fin r => (Fin r, r2.2)
            end in
  task_chat r1.1 = Some 5
  /\ chat_locks r1.2 !! 5 = Some true
  /\ r2.1 = Fin (Ok tt)
  /\ trace (world r2.2) = [EvReply 5 TXT_BUSY]
  /\ r3.1 = Fin (Ok tt)
  /\ chat_locks r3.2 !! 5 = Some false.
Proof. vm_compute. repeat split. Qed.

(** C2.  In every state the process can reach, each chat has at most one
    pipeline in flight, and its lock is held exactly when it has one; the
    states are those of the event loop that starts the two handlers when a
    text or a callback arrives and resumes them where they await, and each
    handler, run with no other in between, is the handler run in one go.
    A text that arrives for a chat whose lock is held is answered at once
    that a download is still going on: the handler ends without being
    suspended, no task is added, the registry of pending tokens, the locks
    and the file system are as they were, and the only call made is that
    reply.  A quality choice that reaches the lock while it is held is
    answered as busy in the same way: it ends there, no token is added and
    no command is run. *)
Theorem one_pipeline_per_chat (env : Env) (cfg : Config) (s : Sys) :
  reachable env cfg s ->
  (forall chat,
     (in_flight chat s <= 1)%nat
     /\ (lock_held chat (bot s) <-> in_flight chat s = 1%nat))
  /\ (forall message url,
        URL_RE_search env (strip (msg_text message)) = Some url ->
        lock_held (msg_chat_id message) (bot s) ->
        let b' := (handle_text env cfg message (bot s)).2 in
        trace (world b')
        = trace (world (bot s)) ++ [EvReply (msg_chat_id message) TXT_BUSY]
        /\ pending_jobs b' = pending_jobs (bot s)
        /\ chat_locks b' = chat_locks (bot s)
        /\ fs (world b') = fs (world (bot s))
        /\ (exists r, Async.handle_text env cfg message (bot s) = (Fin r, b'))
        /\ step env cfg s {| bot := b'; tasks := tasks s |})
  /\ (forall call job choice,
        lock_held (job_chat_id job) (bot s) ->
        let b' := (guard_chat (job_chat_id job) (answer env TXT_BUSY true)
                        (quality_body env cfg call job choice) (bot s)).2 in
        trace (world b') = trace (world (bot s)) ++ [EvAnswer TXT_BUSY true]
        /\ pending_jobs b' = pending_jobs (bot s)
        /\ chat_locks b' = chat_locks (bot s)
        /\ fs (world b') = fs (world (bot s))
        /\ exists r,
             Async.guard_chat (job_chat_id job) (answer env TXT_BUSY true)
               (Async.pipeline (job_chat_id job)
                  (quality_body env cfg call job choice)) (bot s)
             = (Fin r, b'))
  /\ (forall message b,
        alone (Async.handle_text env cfg message) b
        = handle_text env cfg message b)
  /\ (forall call b,
        alone (Async.on_quality_choice env cfg call) b
        = on_quality_choice env cfg call b).
Proof.
  intros Hreach. split; [|split; [|split; [|split]]].
  - apply (reachable_invariant env cfg s Hreach).
  - intros message url Hurl Hheld b'.
    assert (Hb' : b' = logged (EvReply (msg_chat_id message) TXT_BUSY) (bot s))
      by (apply handle_text_held with (url := url); assumption).
    do 4 (split; [rewrite Hb'; reflexivity|]).
    pose proof (co_handle_text_held env cfg message url (bot s) Hurl Hheld)
      as Hco.
    split; [eexists; exact Hco|].
    destruct s as [b ts]. cbn [bot tasks] in *.
    pose proof (step_text env cfg b ts message) as Hstep.
    rewrite Hco in Hstep. exact Hstep.
  - intros call job choice Hheld b'.
    assert (Hb' : b' = logged (EvAnswer TXT_BUSY true) (bot s))
      by (apply guard_busy_held; assumption).
    do 4 (split; [rewrite Hb'; reflexivity|]).
    eexists. apply co_guard_held, Hheld.
  - apply alone_handle_text.
  - apply alone_on_quality_choice.
Qed.

Lemma one_pipeline_per_chat_witness :
  let r := Async.handle_text Delivery.env_sent default_config
             Delivery.request (init_bot ∅) in
  let s1 := {| bot := r.2; tasks := park r.1 [] |} in
  (in_flight 5 s1 <= 1)%nat
  /\ lock_held 5 (bot s1)
  /\ trace (world (handle_text Delivery.env_sent default_config
                     Delivery.request (bot s1)).2)
     = trace (world (bot s1)) ++ [EvReply 5 TXT_BUSY].
Proof.
  intros r s1.
  assert (Hreach : reachable Delivery.env_sent default_config s1).
  { exists ∅. eapply rtc_l; [|apply rtc_refl].
    apply (step_text Delivery.env_sent default_config (init_bot ∅) []
             Delivery.request). }
  destruct (one_pipeline_per_chat Delivery.env_sent default_config s1 Hreach)
    as (Hinv & Htext & _).
  assert (Hheld : lock_held 5 (bot s1)) by (vm_compute; reflexivity).
  split; [apply Hinv|]. split; [exact Hheld|].
  apply (Htext Delivery.request Delivery.TIKTOK).
  - vm_compute. reflexivity.
  - exact Hheld.
Defined.

(* ===================================================================== *)
(* ===================================================================== *)
(** * Further properties of the code *)
(* ===================================================================== *)
(* ===================================================================== *)

(* ===================================================================== *)
(** * Reading the probe: [load_first_json], sizes, heights *)
(* ===================================================================== *)


Section Substrings.








End Substrings.


Example load_first_json_skips_log_lines :
  load_first_json env_echo
    (u "WARNING: falling back" ++ NL ++ u "{1: [2, {}]}" ++ NL ++ u "done")
  = Ok [(u "text", JStr (u "{1: [2, {}]}"))].
Proof. vm_compute. reflexivity. Qed.

Example load_first_json_first_line :
  load_first_json env_echo (u "  {1: 2}  " ++ NL ++ u "{3: 4}" ++ NL)
  = Ok [(u "text", JStr (u "{1: 2}"))].
Proof. vm_compute. reflexivity. Qed.


(** ** [extract_estimated_size_bytes] *)






Example estimated_size_examples :
  extract_estimated_size_bytes
    [(u "filesize", JInt 0); (u "filesize_approx", JInt 700)] = Some 700
  /\ extract_estimated_size_bytes
       [(u "filesize", JFloat false); (u "filesize_approx", JNull);
        (u "requested_downloads",
         JList [JStr (u "x"); JDict [(u "filesize", JInt (-5))];
                JDict [(u "filesize_approx", JInt 9)];
                JDict [(u "filesize", JInt 4)]])] = Some 9
  /\ extract_estimated_size_bytes [(u "title", JStr (u "a"))] = None.
Proof. vm_compute. repeat split. Qed.


(** ** [extract_available_heights] *)

Section Sorted.
Context {A : Type} (le : A -> A -> bool).
Hypothesis le_total : forall x y, le x y = false -> le y x = true.


End Sorted.



(* ===================================================================== *)
(** * Sending and removing files *)
(* ===================================================================== *)

Section Sends.
Context (env : Env).
#[local] Open Scope monad_scope.



End Sends.

(** ** [safe_remove] and the cleanup loop *)

Section Removal.









End Removal.

Section CleanupLoop.
#[local] Open Scope monad_scope.









End CleanupLoop.

(* ===================================================================== *)
(** * The buckets of a delivery, and the upload limit *)
(* ===================================================================== *)

Section Buckets.








Example buckets_example :
  let files := [u "/d/a.MP4"; u "/d/b.jpg"; u "/d/c.opus"; u "/d/d.gif";
                u "/d/e"; u "/d/f.webp"; u "/d/g.mkv"] in
  images_of files = [u "/d/b.jpg"; u "/d/f.webp"]
  /\ videos_of files = [u "/d/a.MP4"; u "/d/g.mkv"]
  /\ audios_of files = [u "/d/c.opus"]
  /\ non_media_docs_of files = [u "/d/d.gif"; u "/d/e"].
Proof. vm_compute. repeat split. Qed.


End Buckets.

Section UploadLimit.
Context (env : Env) (cfg : Config).
#[local] Open Scope monad_scope.



End UploadLimit.


(* ===================================================================== *)
(** * Cookies, the plan of a probe, the files of a download *)
(* ===================================================================== *)

Section Cookies.
Context (cfg : Config).



End Cookies.

Example explicit_cookies_missing :
  let cfg := {| DOWNLOAD_DIR := u "/data"; MAX_FILE_MB := 1900;
                TG_MAX_UPLOAD_MB := 1900; QUALITY_MENU_TTL_SEC := 600;
                DELETE_STATUS_ON_SUCCESS := true;
                DELETE_STATUS_DELAY_SEC := 2;
                YTDLP_IMPERSONATE := u "chrome"; YTDLP_FORCE_IPV4 := true;
                YTDLP_YOUTUBE_PLAYER_CLIENT := u "web";
                YTDLP_REMOTE_COMPONENTS := u "ejs:github";
                YTDLP_COOKIES := u " /secrets/gone.txt " |} in
  let f : FS := {[ u "/run/secrets/cookies.txt" := File 10 ]} in
  resolve_cookies_source cfg f = None
  /\ resolve_cookies_source default_config f
     = Some (u "/run/secrets/cookies.txt").
Proof. vm_compute. split; reflexivity. Qed.

(** ** The plan of a probe *)

Section Strip.







End Strip.

Example plan_of_probe :
  (precheck_plan (env_probe 0) default_config (u "https://vimeo.com/1") 1900
     (u "/data") Scenario.w0).1
  = Ok {| mode := video; title := u "Clip"; description := [];
          info := Some probe_doc |}
  /\ (precheck_plan (env_probe 0) default_config (u "https://vimeo.com/1") 4
        (u "/data") Scenario.w0).1
     = Raise (RuntimeError
                (u "Файл ~5.0 MB превышает лимит 4 MB. Скачивание отменено.")).
Proof. vm_compute. split; reflexivity. Qed.



(* ===================================================================== *)
(** * The files a download returns *)
(* ===================================================================== *)










Section Files.
Context (env : Env) (cfg : Config).




End Files.




(* ===================================================================== *)
(** * The URL classifier *)
(* ===================================================================== *)




(* ===================================================================== *)
(** * The quality keyboard and the choices it sends back *)
(* ===================================================================== *)

Section Decimal.







End Decimal.

Section Splitting.




End Splitting.

Section Chunks.
Context {A : Type}.




End Chunks.




(* ===================================================================== *)
(** * Choices that start no download: malformed data, and [cancel] *)
(* ===================================================================== *)

Section SplitFacts.




End SplitFacts.

Section Choices.
Context (env : Env) (cfg : Config).
#[local] Open Scope monad_scope.




End Choices.



(* ===================================================================== *)
(** * What can leave [on_quality_choice] *)
(* ===================================================================== *)

Section Failures.
Context (env : Env) (cfg : Config).
#[local] Open Scope monad_scope.






End Failures.


(* ===================================================================== *)
(** * Opening the quality menu *)
(* ===================================================================== *)

Section OpenMenu.
Context (env : Env) (cfg : Config).
#[local] Open Scope monad_scope.


End OpenMenu.


(* ===================================================================== *)
(** * What counts as a timeout *)
(* ===================================================================== *)



Section Timeouts.
Context (env : Env).


End Timeouts.
